(** * Line classification and its cache in vscode-branch-diff

    A shallow embedding of
    - [GitService.parseUnifiedDiff] and [GitService.getLineDiff]
      (gitService.ts), the classifier that turns the text of a unified
      diff into [LineChange] records, and
    - the cache of [GutterDecorationProvider] (gutterDecorationProvider.ts):
      [setMergeBase], [refreshAll] and the look-up-or-fetch part of
      [updateDecorations],
    followed by the properties proved about them.

    Numbers.  A JavaScript number is an IEEE double; every number of the
    classifier is a line number or a count of lines, and sums and
    differences of integers are exact in doubles as long as they stay at or
    below 2^53 ([maxExact]).  The embedding uses [Z]: it is the code on
    diffs whose line numbers stay in that range, and the statements that
    give line numbers say so ([lineNumbersExact], or a bound on the cursor);
    beyond it the code rounds and the embedding does not.

    Strings.  A line is a [string]; the classifier only looks at the ASCII
    characters '@', '-', '+', ' ', ',', the digits and the line feed. *)

From Stdlib Require Import ZArith String Ascii List Lia Sorted.
From stdpp Require Import base option list sorting strings gmap.
From Equations Require Import Equations.

Local Open Scope string_scope.
Local Open Scope list_scope.
Local Open Scope Z_scope.

(** ** Data model (gitService.ts) *)

(** [type LineChangeType = 'added' | 'modified' | 'deleted'] *)
Inductive LineChangeType : Set := added | modified | deleted.

(** [interface LineChange { type; startLine; endLine }] *)
Record LineChange : Set := mkLineChange {
  type : LineChangeType;
  startLine : Z;
  endLine : Z
}.

#[global] Instance LineChangeType_eq_dec : EqDecision LineChangeType.
Proof. solve_decision. Defined.

#[global] Instance LineChange_eq_dec : EqDecision LineChange.
Proof. solve_decision. Defined.

(** ** The string primitives the classifier uses *)

Module Js.

(** [s.split('\n')]: the pieces between line feeds; the empty string gives
    one empty piece, a trailing line feed a last empty piece. *)
Fixpoint split (s : string) : list string :=
  match s with
  | EmptyString => [EmptyString]
  | String c s' =>
      if Ascii.eqb c "010" then EmptyString :: split s'
      else match split s' with
           | piece :: pieces => String c piece :: pieces
           | [] => [String c EmptyString]
           end
  end.

(** [line.startsWith(p)] *)
Definition startsWith (p line : string) : bool := String.prefix p line.

(** What is left of [s] after the literal [p], when [s] starts with it. *)
Fixpoint stripPrefix (p s : string) : option string :=
  match p, s with
  | EmptyString, _ => Some s
  | String a p', String b s' => if Ascii.eqb a b then stripPrefix p' s' else None
  | String _ _, EmptyString => None
  end.

(** The character class [\d] (ASCII digits only). *)
Definition isDigit (c : ascii) : bool :=
  (48 <=? nat_of_ascii c)%nat && (nat_of_ascii c <=? 57)%nat.

(** The longest run of digits at the head of [s], and what follows it. *)
Fixpoint spanDigits (s : string) : string * string :=
  match s with
  | String c s' =>
      if isDigit c then let (ds, r) := spanDigits s' in (String c ds, r)
      else (EmptyString, s)
  | EmptyString => (EmptyString, EmptyString)
  end.

(** [\d+].  It is followed in the pattern by ',' or ' ' only, so the greedy
    match is the only one that can succeed. *)
Definition digits1 (s : string) : option (string * string) :=
  match spanDigits s with
  | (EmptyString, _) => None
  | (ds, r) => Some (ds, r)
  end.

(** [(?:,\d+)?]: skipped when it does not match. *)
Definition optCount (s : string) : string :=
  match stripPrefix "," s with
  | Some s' => match digits1 s' with Some (_, r) => r | None => s end
  | None => s
  end.

(** [line.match(/^@@ -\d+(?:,\d+)? \+(\d+)(?:,\d+)? @@/)]: capture group 1
    when the line matches, [None] for JavaScript's [null]. *)
Definition hunkMatch (line : string) : option string :=
  s1 ← stripPrefix "@@ -" line;
  '(_, s2) ← digits1 s1;
  s3 ← stripPrefix " +" (optCount s2);
  '(g1, s4) ← digits1 s3;
  _ ← stripPrefix " @@" (optCount s4);
  Some g1.

(** Every character of [s] is a digit. *)
Fixpoint allDigits (s : string) : bool :=
  match s with
  | String c s' => isDigit c && allDigits s'
  | EmptyString => true
  end.

(** [parseInt(s, 10)] on a string that starts with a digit: the value of
    the leading digits.  (On a string with no leading digit JavaScript gives
    NaN; the classifier applies [parseInt] to capture group 1 only, which is
    a non-empty run of digits, see [hunkMatch_digits].) *)
Fixpoint parseIntFrom (acc : Z) (s : string) : Z :=
  match s with
  | String c s' =>
      if isDigit c then parseIntFrom (10 * acc + (Z.of_nat (nat_of_ascii c) - 48)) s'
      else acc
  | EmptyString => acc
  end.

Definition parseInt (s : string) : Z := parseIntFrom 0 s.

End Js.

Arguments Js.startsWith : simpl never.
Arguments Js.hunkMatch : simpl never.

(** ** The classifier: [GitService.parseUnifiedDiff] *)

(** [while (i < lines.length && lines[i].startsWith(p)) i++], as the number
    of steps [i] makes; [ls] is [lines[i..]]. *)
Fixpoint countWhile (p : string) (ls : list string) : nat :=
  match ls with
  | l :: ls' => if Js.startsWith p l then S (countWhile p ls') else O
  | [] => O
  end.

(** [changes.push(c)] *)
Definition push (changes : list LineChange) (c : LineChange) : list LineChange :=
  changes ++ [c].

(** The body of the [for] loop at index [i], where [line = lines[i]] and
    [tl = lines[i+1..]].  It returns the number of lines by which the body
    itself moves [i] (the two [while] loops and the [i--]; the loop's own
    [i++] comes on top), the cursor [newLine] and [changes]. *)
Definition iteration (line : string) (tl : list string)
    (newLine : Z) (changes : list LineChange) : nat * Z * list LineChange :=
  match Js.hunkMatch line with
  | Some g1 => (O, Js.parseInt g1, changes)
  | None =>
    if newLine =? 0 then (O, newLine, changes)
    else if Js.startsWith "-" line then
      let removeCount := countWhile "-" (line :: tl) in
      let addCount := countWhile "+" (drop removeCount (line :: tl)) in
      let moved := (removeCount + addCount - 1)%nat in
      if (0 <? removeCount)%nat && (0 <? addCount)%nat then
        let overlap := Nat.min removeCount addCount in
        let changes :=
          push changes (mkLineChange modified newLine (newLine + Z.of_nat overlap - 1)) in
        let changes :=
          if (overlap <? addCount)%nat then
            push changes (mkLineChange added (newLine + Z.of_nat overlap)
                                             (newLine + Z.of_nat addCount - 1))
          else if (overlap <? removeCount)%nat then
            push changes (mkLineChange deleted (newLine + Z.of_nat overlap)
                                               (newLine + Z.of_nat overlap))
          else changes in
        (moved, newLine + Z.of_nat addCount, changes)
      else if (0 <? addCount)%nat then
        (moved, newLine + Z.of_nat addCount,
         push changes (mkLineChange added newLine (newLine + Z.of_nat addCount - 1)))
      else
        (moved, newLine, push changes (mkLineChange deleted newLine newLine))
    else if Js.startsWith "+" line then
      let addCount := countWhile "+" (line :: tl) in
      ((addCount - 1)%nat, newLine + Z.of_nat addCount,
       push changes (mkLineChange added newLine (newLine + Z.of_nat addCount - 1)))
    else if Js.startsWith " " line then (O, newLine + 1, changes)
    else (O, newLine, changes)
  end.

(** [for (let i = 0; i < lines.length; i++) { ... }], with [rest] for
    [lines[i..]]: the loop ends when [i] reaches [lines.length].  Every turn
    moves [i] forward by at least one line, which is the measure. *)
Equations? loop (rest : list string) (newLine : Z) (changes : list LineChange)
    : list LineChange by wf (length rest) lt :=
  loop [] _ changes := changes;
  loop (line :: tl) newLine changes with iteration line tl newLine changes := {
    | (moved, newLine', changes') := loop (drop moved tl) newLine' changes' }.
Proof. rewrite length_drop. simpl. lia. Qed.

Definition parseUnifiedDiff (diffOutput : string) : list LineChange :=
  let lines := Js.split diffOutput in
  loop lines 0 [].

(** ** [GitService.getLineDiff] *)

(** The collaborator the classifier and the cache get their input from:
    [getRepoPath()], a [string | undefined], and
    [execAsync(command, { cwd, maxBuffer })], the [stdout] of the git process
    or [None] when the promise is rejected (the [catch] branch). *)
Class GitService : Type := {
  getRepoPath : option string;
  execAsync : string -> string -> option string
}.

Section GitService.

Context {gitService : GitService}.

(** The template [`git diff ${mergeBase}..HEAD -- "${filePath}"`]. *)
Definition gitDiffCommand (mergeBase filePath : string) : string :=
  "git diff " +:+ mergeBase +:+ "..HEAD -- " +:+
  String "034" (filePath +:+ String "034" EmptyString).

Definition getLineDiff (mergeBase filePath : string) : list LineChange :=
  match getRepoPath with
  | None | Some EmptyString => []
  | Some cwd =>
      match execAsync (gitDiffCommand mergeBase filePath) cwd with
      | Some stdout => parseUnifiedDiff stdout
      | None => []
      end
  end.

(** ** The cache of [GutterDecorationProvider] *)

(** The fields of the class the cache lives in: [cache], a
    [Map<string, LineChange[]>], [mergeBase] and [enabled]. *)
Record GutterDecorationProvider : Type := mkProvider {
  cache : gmap string (list LineChange);
  mergeBase : string;
  enabled : bool
}.

(** The field initialisers: an empty map and [mergeBase = '']. *)
Definition newProvider (gutterIndicators : bool) : GutterDecorationProvider :=
  mkProvider ∅ "" gutterIndicators.

(** [setMergeBase(mergeBase)]: the provider after the call and the value
    returned. *)
Definition setMergeBase (this : GutterDecorationProvider) (newBase : string)
    : GutterDecorationProvider * bool :=
  if negb (String.eqb (mergeBase this) newBase) then
    (mkProvider ∅ newBase (enabled this), true)
  else (this, false).

(** The [this.cache.clear()] of [refreshAll()]. *)
Definition cacheClear (this : GutterDecorationProvider) : GutterDecorationProvider :=
  mkProvider ∅ (mergeBase this) (enabled this).

(** [updateDecorations] is [async] and has one [await], on
    [getLineDiff].  How its synchronous first part ends: it returned before
    it looked at the cache, it found [lineChanges] in the cache, or it
    called [getLineDiff(this.mergeBase, relativePath)] and waits. *)
Inductive Begun : Type :=
| Returned
| CacheHit (lineChanges : list LineChange)
| Awaiting (mergeBase relativePath : string).

(** [updateDecorations(editor)] up to the [await]; [relativePath] is [None]
    when the editor's document is no file of the repository.  A stored array
    is truthy even when empty, so [!lineChanges] holds for a missing key
    only. *)
Definition updateDecorations_begin (this : GutterDecorationProvider)
    (relativePath : option string) : Begun :=
  if negb (enabled this) || String.eqb (mergeBase this) "" then Returned
  else match relativePath with
       | None => Returned
       | Some relativePath =>
           match cache this !! relativePath with
           | Some lineChanges => CacheHit lineChanges
           | None => Awaiting (mergeBase this) relativePath
           end
       end.

(** [updateDecorations] from the moment [getLineDiff] has delivered
    [lineChanges]: [this.cache.set(relativePath, lineChanges)]. *)
Definition updateDecorations_resume (this : GutterDecorationProvider)
    (relativePath : string) (lineChanges : list LineChange)
    : GutterDecorationProvider :=
  mkProvider (<[relativePath := lineChanges]> (cache this))
             (mergeBase this) (enabled this).

(** Lines 106-111 of [updateDecorations] ("check cache or fetch") run with
    nothing else in between: the [lineChanges] obtained, the provider
    afterwards, and the calls of [getLineDiff] made, as (mergeBase,
    filePath). *)
Definition lookupOrFetch (this : GutterDecorationProvider) (relativePath : string)
    : list LineChange * GutterDecorationProvider * list (string * string) :=
  match cache this !! relativePath with
  | Some lineChanges => (lineChanges, this, [])
  | None =>
      let lineChanges := getLineDiff (mergeBase this) relativePath in
      (lineChanges, updateDecorations_resume this relativePath lineChanges,
       [(mergeBase this, relativePath)])
  end.

(** ** Interleavings of the cache operations

    The extension runs on one thread; calls of [updateDecorations] overlap
    only at their [await].  The state is the provider, the calls of
    [getLineDiff] that have not delivered yet, as (relativePath, mergeBase
    passed), and, for the statements only, the paths [getLineDiff] was called
    for since the cache was last cleared. *)
Record Extension : Type := mkExtension {
  gutterProvider : GutterDecorationProvider;
  awaiting : list (string * string);
  fetched : list string
}.

Inductive Event : Type :=
| SetMergeBase (newBase : string)   (* setMergeBase(newBase) *)
| CacheClear                        (* the cache.clear() of refreshAll() *)
| Begin (relativePath : string)     (* updateDecorations up to its await *)
| Resume (k : nat).                 (* the k-th pending getLineDiff delivers *)

Definition step (s : Extension) (e : Event) : Extension :=
  match e with
  | SetMergeBase newBase =>
      let '(this, changed) := setMergeBase (gutterProvider s) newBase in
      mkExtension this (awaiting s) (if changed then [] else fetched s)
  | CacheClear =>
      mkExtension (cacheClear (gutterProvider s)) (awaiting s) []
  | Begin relativePath =>
      match updateDecorations_begin (gutterProvider s) (Some relativePath) with
      | Awaiting base path =>
          mkExtension (gutterProvider s) (awaiting s ++ [(path, base)])
                      (path :: fetched s)
      | _ => s
      end
  | Resume k =>
      match awaiting s !! k with
      | Some (path, base) =>
          mkExtension
            (updateDecorations_resume (gutterProvider s) path (getLineDiff base path))
            (delete k (awaiting s)) (fetched s)
      | None => s
      end
  end.

Definition run (s : Extension) (trace : list Event) : Extension :=
  foldl step s trace.

Definition start (gutterIndicators : bool) : Extension :=
  mkExtension (newProvider gutterIndicators) [] [].

(** Every event of [trace] passes the check [ok] in the state it occurs in. *)
Fixpoint respects (ok : Extension -> Event -> bool)
    (s : Extension) (trace : list Event) : bool :=
  match trace with
  | [] => true
  | e :: trace' => ok s e && respects ok (step s e) trace'
  end.

(** [setMergeBase] does not change the base while a [getLineDiff] is
    pending. *)
Definition noBaseChangeInFlight (s : Extension) (e : Event) : bool :=
  match e with
  | SetMergeBase newBase =>
      String.eqb (mergeBase (gutterProvider s)) newBase ||
      match awaiting s with [] => true | _ :: _ => false end
  | _ => true
  end.

(** [updateDecorations] is not begun for a path whose [getLineDiff] is
    pending. *)
Definition noOverlap (s : Extension) (e : Event) : bool :=
  match e with
  | Begin relativePath => negb (bool_decide (relativePath ∈ (awaiting s).*1))
  | _ => true
  end.

(** What the cache holds, and so what a look-up obtains for any path, is
    the classification against the base the provider holds now. *)
Definition servesCurrentBase (s : Extension) : Prop :=
  forall relativePath,
    fst (fst (lookupOrFetch (gutterProvider s) relativePath)) =
    getLineDiff (mergeBase (gutterProvider s)) relativePath.

(** Since the cache was last cleared [getLineDiff] was called at most once
    for each path. *)
Definition fetchedAtMostOnce (s : Extension) : Prop := NoDup (fetched s).

(** Entries and pending calls belong to the base held. *)
Definition fresh (s : Extension) : Prop :=
  (forall path lineChanges,
      cache (gutterProvider s) !! path = Some lineChanges ->
      lineChanges = getLineDiff (mergeBase (gutterProvider s)) path) /\
  Forall (fun pending => snd pending = mergeBase (gutterProvider s)) (awaiting s).

(** The paths fetched since the cache was cleared are all different, and
    each has its entry or a pending call. *)
Definition accounted (s : Extension) : Prop :=
  NoDup (fetched s) /\
  forall path, path ∈ fetched s ->
    is_Some (cache (gutterProvider s) !! path) \/ path ∈ (awaiting s).*1.

End GitService.

(** ** Vocabulary of the statements *)

(** The condition of the [while] loops,
    [i < lines.length && lines[i].startsWith(p)], at [rest = lines[i..]]. *)
Definition whileCond (p : string) (rest : list string) : bool :=
  match rest with
  | l :: _ => Js.startsWith p l
  | [] => false
  end.

(** [run] is a run of lines that all start with [p]. *)
Definition runOf (p : string) (run : list string) : Prop :=
  Forall (fun l => Js.startsWith p l = true) run.

(** [text] for the lines of a diff: [lines.join('\n')]. *)
Fixpoint unlines (lines : list string) : string :=
  match lines with
  | [] => EmptyString
  | [l] => l
  | l :: ls => l +:+ String "010" (unlines ls)
  end.

(** The records a removed run of length [R] followed by an added run of
    length [A] contributes when the cursor is at [newLine]
    (the statement of the branch [removeCount > 0 && addCount > 0]). *)
Definition pairedRecords (newLine : Z) (R A : nat) : list LineChange :=
  let overlap := Nat.min R A in
  mkLineChange modified newLine (newLine + Z.of_nat overlap - 1) ::
  (if (R <? A)%nat then
     [mkLineChange added (newLine + Z.of_nat overlap) (newLine + Z.of_nat A - 1)]
   else if (A <? R)%nat then
     [mkLineChange deleted (newLine + Z.of_nat overlap) (newLine + Z.of_nat overlap)]
   else []).

(** The cursor is never moved backwards while [rest] is scanned from the
    cursor value [newLine]: the loop body only moves it forwards, so this
    says that every hunk header met carries a new-file start that is at
    least the cursor value reached before it (as in a diff whose hunks come
    in ascending order and do not overlap). *)
Equations? cursorNeverDecreases (rest : list string) (newLine : Z) : bool
    by wf (length rest) lt :=
  cursorNeverDecreases [] _ := true;
  cursorNeverDecreases (line :: tl) newLine with iteration line tl newLine [] := {
    | (moved, newLine', _) :=
        (newLine <=? newLine') && cursorNeverDecreases (drop moved tl) newLine' }.
Proof. rewrite length_drop. simpl. lia. Qed.

(** The [startLine] values of the records, in the order of the array. *)
Definition startLines (changes : list LineChange) : list Z :=
  map startLine changes.

(** A sequence of numbers is non-decreasing. *)
Definition nonDecreasing (l : list Z) : Prop := Sorted Z.le l.

(** A repository for the examples: the file [f] differs from the revision
    [a] in its first line and from every other revision in nothing. *)
Definition exampleGit : GitService := {|
  getRepoPath := Some "/repo";
  execAsync command cwd :=
    if String.eqb command (gitDiffCommand "a" "f")
    then Some (unlines ["@@ -1 +1 @@"; "-x"; "+y"; ""])
    else Some ""
|}.

(** The base changes while the classification of [f] against the old base
    is on its way. *)
Definition staleTrace : list Event :=
  [SetMergeBase "a"; Begin "f"; SetMergeBase "b"; Resume 0].

(** [updateDecorations] is begun twice for [f] (two editors show it) before
    the first [getLineDiff] has delivered. *)
Definition overlappingTrace : list Event :=
  [SetMergeBase "a"; Begin "f"; Begin "f"].

(** ** Shape and order of the records *)

(** A record covers at least one line of the new file, counted from 1, and
    a [deleted] record exactly one. *)
Definition wellFormed (r : LineChange) : Prop :=
  1 <= startLine r <= endLine r /\
  (type r = deleted -> startLine r = endLine r).

(** [r1] lies before [r2]: it does not start later, and unless it is a
    [deleted] marker its lines end before [r2] starts. *)
Definition liesBefore (r1 r2 : LineChange) : Prop :=
  startLine r1 <= startLine r2 /\
  (type r1 <> deleted -> endLine r1 < startLine r2).

(** ** The ranges [updateDecorations] hands to the editor *)

(** A [vscode.Range] whose two positions are at character 0: its first and
    last line, counted from 0. *)
Record Range : Set := mkRange {
  rangeStart : Z;
  rangeEnd : Z
}.

(** [new vscode.Range(startLine, 0, endLine, 0)]: a position with a negative
    line is refused with an exception ([None]), and the two positions are
    swapped when the first comes after the second. *)
Definition vscodeRange (startLine endLine : Z) : option Range :=
  if (startLine <? 0) || (endLine <? 0) then None
  else if startLine <=? endLine then Some (mkRange startLine endLine)
  else Some (mkRange endLine startLine).

(** The three arrays filled by [updateDecorations]. *)
Record Decorations : Set := mkDecorations {
  addedRanges : list Range;
  modifiedRanges : list Range;
  deletedRanges : list Range
}.

(** The [switch (change.type)] with its three [push]es. *)
Definition pushRange (d : Decorations) (t : LineChangeType) (range : Range)
    : Decorations :=
  match t with
  | added => mkDecorations (addedRanges d ++ [range]) (modifiedRanges d) (deletedRanges d)
  | modified => mkDecorations (addedRanges d) (modifiedRanges d ++ [range]) (deletedRanges d)
  | deleted => mkDecorations (addedRanges d) (modifiedRanges d) (deletedRanges d ++ [range])
  end.

(** [for (const change of lineChanges) { ... }] of [updateDecorations], for
    a document of [lineCount] lines, from the arrays [d]. *)
Fixpoint updateDecorations_loop (lineCount : Z) (lineChanges : list LineChange)
    (d : Decorations) : option Decorations :=
  match lineChanges with
  | [] => Some d
  | change :: lineChanges' =>
      let startLine0 := Z.max 0 (startLine change - 1) in
      let endLine0 := Z.max 0 (endLine change - 1) in
      if lineCount <=? startLine0 then updateDecorations_loop lineCount lineChanges' d
      else
        let clampedEnd := Z.min endLine0 (lineCount - 1) in
        match vscodeRange startLine0 clampedEnd with
        | Some range =>
            updateDecorations_loop lineCount lineChanges' (pushRange d (type change) range)
        | None => None
        end
  end.

(** The arrays start empty. *)
Definition updateDecorations_ranges (lineCount : Z) (lineChanges : list LineChange)
    : option Decorations :=
  updateDecorations_loop lineCount lineChanges (mkDecorations [] [] []).

(** All the ranges of [d]. *)
Definition allRanges (d : Decorations) : list Range :=
  addedRanges d ++ modifiedRanges d ++ deletedRanges d.

(** The range a well-formed record stands for in a document of [lineCount]
    lines: its lines counted from 0, cut at the last line of the document. *)
Definition rangeOf (lineCount : Z) (r : LineChange) : Range :=
  mkRange (startLine r - 1) (Z.min (endLine r - 1) (lineCount - 1)).

(** The records of type [t] that start inside a document of [lineCount]
    lines. *)
Definition shown (lineCount : Z) (t : LineChangeType) (lineChanges : list LineChange)
    : list LineChange :=
  filter (fun r => type r = t /\ startLine r <= lineCount) lineChanges.

(** ** [refreshAll], [decorateVisible] and the [syncGutter] of [activate]

    [visible] lists, in the order of [vscode.window.visibleTextEditors], the
    repository-relative paths of the visible editors whose document is a file
    of the repository (for the others [updateDecorations] returns before it
    looks at the cache). *)
Section GutterCommands.

Context {gitService : GitService}.

(** [refreshAll()]: [this.cache.clear()], then [updateDecorations(editor)]
    for every visible editor, none of them awaited. *)
Definition refreshAll (visible : list string) (s : Extension) : Extension :=
  run (step s CacheClear) (Begin <$> visible).

(** [decorateVisible()]: [updateDecorations(editor)] for every visible
    editor. *)
Definition decorateVisible (visible : list string) (s : Extension) : Extension :=
  run s (Begin <$> visible).

(** [syncGutter()], with [treeMergeBase] for [treeProvider.getMergeBase()]. *)
Definition syncGutter (treeMergeBase : string) (visible : list string)
    (s : Extension) : Extension :=
  let changed := snd (setMergeBase (gutterProvider s) treeMergeBase) in
  let s' := step s (SetMergeBase treeMergeBase) in
  if changed then refreshAll visible s' else decorateVisible visible s'.

(** [this.enabled = value] *)
Definition setEnabled (value : bool) (s : Extension) : Extension :=
  mkExtension
    (mkProvider (cache (gutterProvider s)) (mergeBase (gutterProvider s)) value)
    (awaiting s) (fetched s).

(** [toggle()]: [enabled] is negated, then [refreshAll()] when the
    indicators are on now; [clearAllDecorations()] otherwise, which only
    takes the marks off the editors.  The setting that is written and the
    flag [togglingProgrammatically], which only the configuration listener
    reads, are left out. *)
Definition toggle (visible : list string) (s : Extension) : Extension :=
  let s' := setEnabled (negb (enabled (gutterProvider s))) s in
  if enabled (gutterProvider s') then refreshAll visible s' else s'.

(** No call of [getLineDiff] was added between [s] and [s']: what is
    pending or fetched in [s'] was so in [s], and an entry of [s'] was one
    in [s] or was delivered by a call pending in [s]. *)
Definition nothingBegun (s s' : Extension) : Prop :=
  awaiting s' `sublist_of` awaiting s /\
  fetched s' `sublist_of` fetched s /\
  forall path lineChanges,
    cache (gutterProvider s') !! path = Some lineChanges ->
    cache (gutterProvider s) !! path = Some lineChanges \/
    exists base, (path, base) ∈ awaiting s /\ lineChanges = getLineDiff base path.

End GutterCommands.

(** ** More string primitives

    Here a [string] is read as a sequence of code units below 256, on which
    the operations below are those of JavaScript. *)

Module JsString.

(** The white space and line terminators [trim] removes, among the code
    units below 256: tab, line feed, vertical tab, form feed, carriage
    return, space and no-break space. *)
Definition isWhiteSpace (c : ascii) : bool :=
  let n := nat_of_ascii c in
  ((9 <=? n)%nat && (n <=? 13)%nat) || (n =? 32)%nat || (n =? 160)%nat.

Fixpoint trimStart (s : string) : string :=
  match s with
  | String c s' => if isWhiteSpace c then trimStart s' else s
  | EmptyString => EmptyString
  end.

Fixpoint trimEnd (s : string) : string :=
  match s with
  | String c s' =>
      match trimEnd s' with
      | EmptyString => if isWhiteSpace c then EmptyString else String c EmptyString
      | t => String c t
      end
  | EmptyString => EmptyString
  end.

(** [s.trim()] *)
Definition trim (s : string) : string := trimEnd (trimStart s).

(** [s.split(sep)] for a separator of one character. *)
Fixpoint splitChar (sep : ascii) (s : string) : list string :=
  match s with
  | EmptyString => [EmptyString]
  | String c s' =>
      if Ascii.eqb c sep then EmptyString :: splitChar sep s'
      else match splitChar sep s' with
           | piece :: pieces => String c piece :: pieces
           | [] => [String c EmptyString]
           end
  end.

(** [s[0]]: the first character as a string, [None] for [undefined]. *)
Definition first (s : string) : option string :=
  match s with
  | String c _ => Some (String c EmptyString)
  | EmptyString => None
  end.

(** [s.length > 0] *)
Definition nonEmpty (s : string) : bool :=
  match s with EmptyString => false | String _ _ => true end.

End JsString.

Arguments JsString.isWhiteSpace : simpl never.

(** ** [GitService.parseDiffOutput] *)

(** A [ChangedFile] as [parseDiffOutput] builds it.  The interface declares
    [status] and [path] as always present; what is stored comes from
    [statusCode[0]] and [parts[2]], which are [undefined] ([None]) for an
    empty status code and for a rename line with two fields. *)
Record ChangedFile : Set := mkChangedFile {
  status : option string;
  path : option string;
  oldPath : option string
}.

(** The body of [for (const line of lines)]. *)
Definition parseDiffOutput_line (files : list ChangedFile) (line : string)
    : list ChangedFile :=
  match JsString.splitChar "009" line with
  | statusCode :: part1 :: parts' =>
      if Js.startsWith "R" statusCode || Js.startsWith "C" statusCode then
        files ++ [mkChangedFile (JsString.first statusCode) (head parts') (Some part1)]
      else
        files ++ [mkChangedFile (JsString.first statusCode) (Some part1) None]
  | _ => files
  end.

Definition parseDiffOutput (output : string) : list ChangedFile :=
  let lines := List.filter JsString.nonEmpty (Js.split (JsString.trim output)) in
  foldl parseDiffOutput_line [] lines.

(** *** What [git diff --name-status] prints *)

(** An entry of the listing: a status letter and a path, or for a rename or
    a copy the letter, the similarity score and the two paths. *)
Inductive NameStatus : Set :=
| Changed (letter : ascii) (path : string)
| Moved (letter : ascii) (score oldPath path : string).

(** Its line: the fields with tabs in between. *)
Definition nameStatusLine (e : NameStatus) : string :=
  match e with
  | Changed letter path => String letter (String "009" path)
  | Moved letter score oldPath path =>
      String letter (score +:+ String "009" (oldPath +:+ String "009" path))
  end.

(** The listing: every line ends with a line feed. *)
Fixpoint nameStatusOutput (entries : list NameStatus) : string :=
  match entries with
  | [] => EmptyString
  | e :: entries' => nameStatusLine e +:+ String "010" (nameStatusOutput entries')
  end.

(** The [ChangedFile] an entry stands for. *)
Definition changedFileOf (e : NameStatus) : ChangedFile :=
  match e with
  | Changed letter path =>
      mkChangedFile (Some (String letter EmptyString)) (Some path) None
  | Moved letter _ oldPath path =>
      mkChangedFile (Some (String letter EmptyString)) (Some path) (Some oldPath)
  end.

(** [c] occurs in [s]. *)
Fixpoint occursIn (c : ascii) (s : string) : bool :=
  match s with
  | EmptyString => false
  | String a s' => Ascii.eqb a c || occursIn c s'
  end.

(** [s] is not empty and its last character is no white space. *)
Fixpoint endsInText (s : string) : bool :=
  match s with
  | EmptyString => false
  | String c EmptyString => negb (JsString.isWhiteSpace c)
  | String _ s' => endsInText s'
  end.

(** A field holds neither a tab nor a line feed. *)
Definition isField (s : string) : bool :=
  negb (occursIn "009" s) && negb (occursIn "010" s).

(** An entry as git prints it: the letter is R or C exactly for a rename or
    copy and is no white space, no field holds a tab or a line feed, and the
    path ends in a character that is no white space. *)
Definition isListed (e : NameStatus) : bool :=
  match e with
  | Changed letter path =>
      negb (Ascii.eqb letter "R") && negb (Ascii.eqb letter "C") &&
      negb (JsString.isWhiteSpace letter) &&
      isField path && endsInText path
  | Moved letter score oldPath path =>
      (Ascii.eqb letter "R" || Ascii.eqb letter "C") &&
      isField score && isField oldPath && isField path && endsInText path
  end.

(** ** [GitService.getAllBranches] *)

(** [self.indexOf(x)]: the first index at which [x] is found, -1 when it is
    not. *)
Fixpoint indexOf (self : list string) (x : string) : Z :=
  match self with
  | [] => -1
  | y :: self' =>
      if String.eqb y x then 0
      else let i := indexOf self' x in if i <? 0 then -1 else i + 1
  end.

(** [self.filter((element, index) => keep(element, index))], from the
    index [index] on. *)
Fixpoint filterIndexed (keep : string -> nat -> bool) (index : nat)
    (elements : list string) : list string :=
  match elements with
  | [] => []
  | x :: elements' =>
      if keep x index then x :: filterIndexed keep (S index) elements'
      else filterIndexed keep (S index) elements'
  end.

(** [branch.replace(/^origin\//, '')] *)
Definition stripOrigin (branch : string) : string :=
  match Js.stripPrefix "origin/" branch with
  | Some name => name
  | None => branch
  end.

(** The names [git branch] printed, before the duplicates are dropped:
    [stdout.trim().split('\n').filter(...).map(...)]. *)
Definition printedBranches (stdout : string) : list string :=
  map stripOrigin (List.filter JsString.nonEmpty (Js.split (JsString.trim stdout))).

(** The pipeline of [getAllBranches] on the [stdout] of [git branch]. *)
Definition branchNames (stdout : string) : list string :=
  let self := printedBranches stdout in
  filterIndexed (fun branch index => indexOf self branch =? Z.of_nat index) 0 self.

(** *** What [git branch -a --format="%(refname:short)"] prints *)

(** The listing: the short name of each ref, every one followed by a line
    feed. *)
Fixpoint branchListing (refs : list string) : string :=
  match refs with
  | [] => EmptyString
  | ref :: refs' => ref +:+ String "010" (branchListing refs')
  end.

(** The first character of [s] is no white space. *)
Definition startsInText (s : string) : bool :=
  match s with
  | EmptyString => false
  | String c _ => negb (JsString.isWhiteSpace c)
  end.

(** A short ref name as git prints it: one line that neither starts nor ends
    in white space. *)
Definition isRefName (ref : string) : bool :=
  negb (occursIn "010" ref) && startsInText ref && endsInText ref.

(** The branch a ref stands for: the remote-tracking ref [origin/b] stands
    for [b], any other ref for itself. *)
Definition namesBranch (ref branch : string) : Prop :=
  ref = "origin/" +:+ branch \/
  (ref = branch /\ forall rest, ref <> "origin/" +:+ rest).

(** ** More of [GitService]: the commands run with the default buffer *)

(** [execAsync(command, { cwd })]: the [stdout] of the process, [None] when
    the promise is rejected. *)
Class GitCli : Type := {
  execAsyncCwd : string -> string -> option string
}.

Section GitQueries.

Context {gitService : GitService} {gitCli : GitCli}.

(** [branchExists(branch)] *)
Definition branchExists (branch : string) : bool :=
  match getRepoPath with
  | None | Some EmptyString => false
  | Some cwd =>
      match execAsyncCwd ("git rev-parse --verify " +:+ branch) cwd with
      | Some _ => true
      | None => false
      end
  end.

(** [getBaseBranch()], with [configuredBranch] for the setting
    [branchDiff.defaultBaseBranch]; an empty setting is falsy. *)
Definition getBaseBranch (configuredBranch : option string) : option string :=
  let configured :=
    match configuredBranch with
    | Some branch => JsString.nonEmpty branch && branchExists branch
    | None => false
    end in
  if configured then configuredBranch
  else if branchExists "main" then Some "main"
  else if branchExists "master" then Some "master"
  else None.

(** [getMergeBase(baseBranch)] *)
Definition getMergeBase (baseBranch : string) : option string :=
  match getRepoPath with
  | None | Some EmptyString => None
  | Some cwd =>
      match execAsyncCwd ("git merge-base HEAD " +:+ baseBranch) cwd with
      | Some stdout => Some (JsString.trim stdout)
      | None => None
      end
  end.

(** [getChangedFiles(mergeBase)] *)
Definition getChangedFiles (mergeBase : string) : list ChangedFile :=
  match getRepoPath with
  | None | Some EmptyString => []
  | Some cwd =>
      match execAsyncCwd ("git diff --name-status " +:+ mergeBase +:+ "..HEAD") cwd with
      | Some stdout => parseDiffOutput stdout
      | None => []
      end
  end.

End GitQueries.

(** ** [BranchDiffProvider] (branchDiffProvider.ts) *)

Module TreeView.

(** [type TreeItemType = FolderItem | FileItem], with the constructor
    arguments of the two classes; [children] is the array a folder holds. *)
#[local] Unset Elimination Schemes.
Inductive TreeItemType : Type :=
| FolderItem (folderPath label : string) (children : list TreeItemType)
| FileItem (file : ChangedFile) (repoPath mergeBase baseBranch : string).
#[local] Set Elimination Schemes.

(** [findFolder(items, folderPath)]: the [for] loop is [findFolderIn]'s
    inner [fix], one item is [findFolderAt]. *)
Fixpoint findFolderAt (item : TreeItemType) (folderPath : string)
    : option TreeItemType :=
  match item with
  | FolderItem itemPath _ children =>
      if String.eqb itemPath folderPath then Some item
      else
        (fix findFolderIn (items : list TreeItemType) : option TreeItemType :=
           match items with
           | [] => None
           | item' :: items' =>
               match findFolderAt item' folderPath with
               | Some found => Some found
               | None => findFolderIn items'
               end
           end) children
  | FileItem _ _ _ _ => None
  end.

Fixpoint findFolder (items : list TreeItemType) (folderPath : string)
    : option TreeItemType :=
  match items with
  | [] => None
  | item :: items' =>
      match findFolderAt item folderPath with
      | Some found => Some found
      | None => findFolder items' folderPath
      end
  end.

(** The folders of a tree, each before its children and the children in
    their order. *)
Fixpoint foldersOf (item : TreeItemType) : list TreeItemType :=
  match item with
  | FolderItem _ _ children => item :: flat_map foldersOf children
  | FileItem _ _ _ _ => []
  end.

(** [item] is a folder with the path [folderPath]. *)
Definition hasPath (folderPath : string) (item : TreeItemType) : bool :=
  match item with
  | FolderItem itemPath _ _ => String.eqb itemPath folderPath
  | FileItem _ _ _ _ => false
  end.

(** A value that passes [if (value)]: a string that is neither [undefined]
    nor empty. *)
Definition truthy (value : option string) : option string :=
  match value with
  | Some (String c s) => Some (String c s)
  | _ => None
  end.

(** The fields of [BranchDiffProvider]. *)
Record BranchDiffProvider : Type := mkTreeProvider {
  changedFiles : list ChangedFile;
  mergeBase : string;
  _baseBranch : string;
  rootItems : list TreeItemType;
  isLoading : bool;
  statusMessage : option string
}.

Section Refresh.

Context {gitService : GitService} {gitCli : GitCli}.

(** The setting [branchDiff.defaultBaseBranch]. *)
Variable defaultBaseBranch : option string.

(** [buildTree()], which reads the fields of the provider; it groups the
    files with the [path] module of Node and is not looked into here.  It
    can throw ([path.dirname] and [path.basename] throw on the [undefined]
    path of a rename line with one path): [None] then. *)
Variable buildTree : BranchDiffProvider -> option (list TreeItemType).

(** [refresh()], run with nothing else in between; the events fired on
    [onDidChangeTreeData] are left out.  The calls of [gitService] catch
    what their commands throw, so within [try] only [buildTree()] throws,
    after [mergeBase] and [changedFiles] were assigned; [catch] then drops
    the files and the tree, and [finally] ends the loading on every path. *)
Definition refresh (this : BranchDiffProvider) : BranchDiffProvider :=
  if isLoading this then this
  else
    let detected :=
      if JsString.nonEmpty (_baseBranch this) then Some (_baseBranch this)
      else getBaseBranch defaultBaseBranch in
    match truthy detected with
    | None =>
        mkTreeProvider [] (mergeBase this) (_baseBranch this) [] false
          (Some "No main or master branch found")
    | Some branch =>
        match truthy (getMergeBase branch) with
        | Some found =>
            let files := getChangedFiles found in
            let loading := mkTreeProvider files found branch (rootItems this) true None in
            match buildTree loading with
            | Some items =>
                mkTreeProvider files found branch items false
                  (if (length files =? 0)%nat then Some ("No changes from " +:+ branch)
                   else None)
            | None =>
                mkTreeProvider [] found branch [] false (Some "Failed to load changes")
            end
        | None =>
            mkTreeProvider [] (mergeBase this) branch [] false
              (Some ("Cannot find merge-base with " +:+ branch))
        end
    end.

End Refresh.

End TreeView.

(** An example for [refresh]: [git merge-base] prints [abc], and the listing
    is a rename line with one path, the kind [buildTree()] throws on. *)
Definition throwingCli : GitCli := {|
  execAsyncCwd command cwd :=
    if String.eqb command "git merge-base HEAD main"
    then Some ("abc" +:+ String "010" EmptyString)
    else Some ("R100" +:+ String "009" ("old.ts" +:+ String "010" EmptyString))
|}.

(** ** The diff read line by line

    A reading of a diff that looks at one line at a time and pairs nothing:
    the new-file line numbers of the added lines.  The cursor is kept as
    [parseUnifiedDiff] keeps it (a hunk header sets it, 0 stands for "no
    hunk yet"); an added line has the number the cursor shows and moves it
    on by one, a context line moves it on by one. *)
Fixpoint addedLines (lines : list string) (newLine : Z) : list Z :=
  match lines with
  | [] => []
  | line :: lines' =>
      match Js.hunkMatch line with
      | Some g1 => addedLines lines' (Js.parseInt g1)
      | None =>
          if newLine =? 0 then addedLines lines' newLine
          else if Js.startsWith "+" line then newLine :: addedLines lines' (newLine + 1)
          else if Js.startsWith " " line then addedLines lines' (newLine + 1)
          else addedLines lines' newLine
      end
  end.

(** The new-file lines the [added] and [modified] records cover, in the
    order of the records; a [deleted] marker covers none. *)
Definition coveredLines (changes : list LineChange) : list Z :=
  flat_map (fun r => match type r with
                     | deleted => []
                     | _ => seqZ (startLine r) (endLine r - startLine r + 1)
                     end) changes.

(** ** Exact line numbers *)

(** Up to 2^53 every integer is a double, and the code's additions and
    subtractions of line numbers that stay at or below it are exact. *)
Definition maxExact : Z := 2 ^ 53.

(** Every hunk header of [lines] carries a new-file start that, with the
    number of lines of the text added, is at most [maxExact].  The cursor
    starts from such a header and grows by at most one for each line, so on
    such a text no line number the code computes is rounded. *)
Definition lineNumbersExact (lines : list string) : bool :=
  forallb (fun line =>
             match Js.hunkMatch line with
             | Some g1 => Js.parseInt g1 + Z.of_nat (length lines) <=? maxExact
             | None => true
             end) lines.

(** * Properties *)

(** ** The loop, one turn at a time *)

Lemma loop_nil newLine changes : loop [] newLine changes = changes.
Proof. now simp loop. Qed.

Lemma loop_cons line tl newLine changes :
  loop (line :: tl) newLine changes =
  let '(moved, newLine', changes') := iteration line tl newLine changes in
  loop (drop moved tl) newLine' changes'.
Proof.
  simp loop. destruct (iteration line tl newLine changes) as [[moved newLine'] changes'].
  reflexivity.
Qed.

(** ** Lines and runs of lines *)

Lemma startsWith_char (c : ascii) (l : string) :
  Js.startsWith (String c EmptyString) l = true <-> exists s, l = String c s.
Proof.
  unfold Js.startsWith. destruct l as [|b s]; simpl.
  - split; [discriminate | intros [s' Hs]; discriminate].
  - destruct (ascii_dec c b) as [->|Hne].
    + split; [eauto | destruct s; reflexivity].
    + split; [discriminate | intros [s' Hs]; congruence].
Qed.

Lemma startsWith_char_neq (c d : ascii) (l : string) :
  c <> d ->
  Js.startsWith (String c EmptyString) l = true ->
  Js.startsWith (String d EmptyString) l = false.
Proof.
  intros Hne [s ->]%startsWith_char.
  destruct (Js.startsWith (String d EmptyString) (String c s)) eqn:E; [|reflexivity].
  apply startsWith_char in E as [s' E]. congruence.
Qed.

Lemma stripPrefix_cons (a b : ascii) (p s : string) :
  Js.stripPrefix (String a p) (String b s) =
  if Ascii.eqb a b then Js.stripPrefix p s else None.
Proof. reflexivity. Qed.

(** Capture group 1 is a non-empty run of digits, so [parseInt] has a
    number to give, and it is not negative. *)
Lemma spanDigits_digits (s : string) : Js.allDigits (fst (Js.spanDigits s)) = true.
Proof.
  induction s as [|c s IH]; [reflexivity|]. simpl.
  destruct (Js.isDigit c) eqn:E; [|reflexivity].
  destruct (Js.spanDigits s) as [ds r]. simpl in *. now rewrite E, IH.
Qed.

Lemma digits1_digits (s ds r : string) :
  Js.digits1 s = Some (ds, r) -> ds <> EmptyString /\ Js.allDigits ds = true.
Proof.
  unfold Js.digits1. pose proof (spanDigits_digits s) as H.
  destruct (Js.spanDigits s) as [[|c ds'] r']; [discriminate|].
  intros [= <- <-]. split; [discriminate | exact H].
Qed.

Lemma hunkMatch_digits (line g1 : string) :
  Js.hunkMatch line = Some g1 -> g1 <> EmptyString /\ Js.allDigits g1 = true.
Proof.
  unfold Js.hunkMatch. intros H.
  apply bind_Some in H as (s1 & _ & H).
  apply bind_Some in H as ([d s2] & _ & H).
  apply bind_Some in H as (s3 & _ & H).
  apply bind_Some in H as ([g s4] & Hg & H).
  apply bind_Some in H as (s5 & _ & [= <-]).
  now apply digits1_digits in Hg.
Qed.

Lemma parseIntFrom_nonneg (s : string) :
  forall acc, 0 <= acc -> 0 <= Js.parseIntFrom acc s.
Proof.
  induction s as [|c s IH]; intros acc Hacc; simpl; [exact Hacc|].
  destruct (Js.isDigit c) eqn:E; [|exact Hacc].
  apply IH. unfold Js.isDigit in E. apply andb_prop in E as [E _].
  apply Nat.leb_le in E. lia.
Qed.

Lemma parseInt_nonneg (s : string) : 0 <= Js.parseInt s.
Proof. now apply parseIntFrom_nonneg. Qed.

(** A line that matches the hunk-header pattern starts with '@'. *)
Lemma hunkMatch_at (line g1 : string) :
  Js.hunkMatch line = Some g1 -> Js.startsWith "@" line = true.
Proof.
  destruct line as [|c s]; [discriminate|].
  unfold Js.hunkMatch. rewrite stripPrefix_cons.
  destruct (Ascii.eqb_spec "@"%char c) as [<-|Hne]; [|discriminate].
  intros _. apply startsWith_char. eauto.
Qed.

Lemma hunkMatch_not_at (c : ascii) (line : string) :
  c <> "@"%char ->
  Js.startsWith (String c EmptyString) line = true ->
  Js.hunkMatch line = None.
Proof.
  intros Hne Hc. destruct (Js.hunkMatch line) as [g1|] eqn:E; [|reflexivity].
  apply hunkMatch_at in E.
  rewrite (startsWith_char_neq c "@" line Hne Hc) in E. discriminate.
Qed.

Lemma countWhile_run (p : string) (run rest : list string) :
  runOf p run -> whileCond p rest = false ->
  countWhile p (run ++ rest) = length run.
Proof.
  intros Hrun Hrest. induction Hrun as [|l run Hl _ IH]; simpl.
  - destruct rest as [|l rest]; [reflexivity|]. simpl in *. now rewrite Hrest.
  - now rewrite Hl, IH.
Qed.

Lemma whileCond_run (p q : ascii) (run rest : list string) :
  p <> q -> run <> [] -> runOf (String p EmptyString) run ->
  whileCond (String q EmptyString) (run ++ rest) = false.
Proof.
  intros Hne Hnil Hrun. destruct Hrun as [|l run Hl _]; [congruence|].
  simpl. now apply (startsWith_char_neq p q).
Qed.

(** What the loop body makes of a run of removed lines [m :: ms] that starts
    at [lines[i]] and a run of added lines [ps] right after it (possibly
    empty): [removeCount] and [addCount] are the lengths of the two runs. *)
Lemma iteration_removed_run m ms ps rest newLine :
  newLine <> 0 ->
  runOf "-" (m :: ms) -> runOf "+" ps ->
  whileCond "+" rest = false ->
  (ps = [] -> whileCond "-" rest = false) ->
  let removeCount := length (m :: ms) in
  let addCount := length ps in
  countWhile "-" (m :: ms ++ ps ++ rest) = removeCount /\
  countWhile "+" (drop removeCount (m :: ms ++ ps ++ rest)) = addCount /\
  drop (removeCount + addCount - 1) (ms ++ ps ++ rest) = rest /\
  Js.hunkMatch m = None /\ (newLine =? 0) = false /\ Js.startsWith "-" m = true.
Proof.
  intros Hc Hms Hps Hrest Hnil removeCount addCount.
  assert (Hm : Js.startsWith "-" m = true) by now inversion Hms.
  assert (Hr : countWhile "-" ((m :: ms) ++ ps ++ rest) = removeCount).
  { apply countWhile_run; [assumption|].
    destruct ps as [|q ps]; [now apply Hnil|].
    now apply (whileCond_run "+" "-"). }
  assert (Hd : forall k, drop (length (m :: ms) + k) ((m :: ms) ++ ps ++ rest)
                         = drop k (ps ++ rest)).
  { intros k. now rewrite drop_app_add. }
  repeat split.
  - exact Hr.
  - change (m :: ms ++ ps ++ rest) with ((m :: ms) ++ ps ++ rest).
    replace removeCount with (length (m :: ms) + 0)%nat by (unfold removeCount; lia).
    rewrite Hd. simpl drop. now apply countWhile_run.
  - replace (removeCount + addCount - 1)%nat with (length ms + length ps)%nat
      by (unfold removeCount, addCount; simpl; lia).
    rewrite drop_app_add. now rewrite drop_app_length.
  - now apply (hunkMatch_not_at "-").
  - now apply Z.eqb_neq.
  - exact Hm.
Qed.

(** The same for a run of added lines [p :: ps] that starts at [lines[i]]. *)
Lemma iteration_added_run p ps rest newLine :
  newLine <> 0 ->
  runOf "+" (p :: ps) -> whileCond "+" rest = false ->
  countWhile "+" (p :: ps ++ rest) = length (p :: ps) /\
  drop (length (p :: ps) - 1) (ps ++ rest) = rest /\
  Js.hunkMatch p = None /\ (newLine =? 0) = false /\
  Js.startsWith "-" p = false /\ Js.startsWith "+" p = true.
Proof.
  intros Hc Hps Hrest.
  assert (Hp : Js.startsWith "+" p = true) by now inversion Hps.
  repeat split.
  - now apply (countWhile_run "+" (p :: ps)).
  - replace (length (p :: ps) - 1)%nat with (length ps) by (simpl; lia).
    now rewrite drop_app_length.
  - now apply (hunkMatch_not_at "+").
  - now apply Z.eqb_neq.
  - now apply (startsWith_char_neq "+" "-").
  - exact Hp.
Qed.

Section Classifier.

Variables (newLine : Z) (changes : list LineChange).
Hypothesis inHunk : newLine <> 0.

Lemma iteration_paired m ms ps rest :
  runOf "-" (m :: ms) -> ps <> [] -> runOf "+" ps ->
  whileCond "+" rest = false ->
  let R := length (m :: ms) in
  let A := length ps in
  iteration m (ms ++ ps ++ rest) newLine changes =
    ((R + A - 1)%nat, newLine + Z.of_nat A, changes ++ pairedRecords newLine R A).
Proof.
  intros Hms Hnil Hps Hrest R A.
  destruct (iteration_removed_run m ms ps rest newLine inHunk Hms Hps Hrest)
    as (Hr & Ha & _ & Hh & Hz & Hm); [congruence|].
  unfold iteration. rewrite Hh, Hz, Hm, Hr, Ha. fold R A.
  assert (HA : (0 < A)%nat) by (unfold A; destruct ps; [congruence | simpl; lia]).
  assert (HR : (0 < R)%nat) by (unfold R; simpl; lia).
  destruct (Nat.ltb_spec 0 R); [|lia]. destruct (Nat.ltb_spec 0 A); [|lia].
  cbn [andb]. unfold pairedRecords, push.
  destruct (Nat.ltb_spec (Nat.min R A) A), (Nat.ltb_spec R A); try lia.
  - now rewrite <- app_assoc.
  - destruct (Nat.ltb_spec (Nat.min R A) R), (Nat.ltb_spec A R); try lia.
    + now rewrite <- app_assoc.
    + reflexivity.
Qed.

Lemma loop_paired m ms ps rest :
  runOf "-" (m :: ms) -> ps <> [] -> runOf "+" ps ->
  whileCond "+" rest = false ->
  loop (m :: ms ++ ps ++ rest) newLine changes =
  loop rest (newLine + Z.of_nat (length ps))
       (changes ++ pairedRecords newLine (length (m :: ms)) (length ps)).
Proof.
  intros Hms Hnil Hps Hrest.
  rewrite loop_cons, iteration_paired by assumption.
  destruct (iteration_removed_run m ms ps rest newLine inHunk Hms Hps Hrest)
    as (_ & _ & Hd & _); [congruence|].
  now rewrite Hd.
Qed.

End Classifier.

Lemma iteration_deletion newLine changes m ms rest :
  newLine <> 0 ->
  runOf "-" (m :: ms) ->
  whileCond "-" rest = false -> whileCond "+" rest = false ->
  iteration m (ms ++ rest) newLine changes =
    (length ms, newLine, changes ++ [mkLineChange deleted newLine newLine]) /\
  drop (length ms) (ms ++ rest) = rest.
Proof.
  intros Hc Hms Hminus Hplus.
  destruct (iteration_removed_run m ms [] rest newLine Hc Hms) as (Hr & Ha & Hd & Hh & Hz & Hm);
    [constructor | assumption | now intros _ |].
  cbn [app length] in Hr, Ha, Hd. split.
  - unfold iteration. rewrite Hh, Hz, Hm, Hr, Ha. cbn [Nat.ltb Nat.leb andb].
    unfold push. repeat f_equal. lia.
  - now rewrite drop_app_length.
Qed.

Lemma iteration_insertion newLine changes p ps rest :
  newLine <> 0 ->
  runOf "+" (p :: ps) -> whileCond "+" rest = false ->
  iteration p (ps ++ rest) newLine changes =
    (length ps, newLine + Z.of_nat (length (p :: ps)),
     changes ++ [mkLineChange added newLine
                   (newLine + Z.of_nat (length (p :: ps)) - 1)]).
Proof.
  intros Hc Hps Hrest.
  destruct (iteration_added_run p ps rest newLine Hc Hps Hrest)
    as (Hr & _ & Hh & Hz & Hm & Hp).
  unfold iteration. rewrite Hh, Hz, Hm, Hp, Hr. unfold push.
  repeat f_equal. simpl. lia.
Qed.

(** ** The three kinds of run *)




(** C2.  What the code does where the claim fails: [@@ -1,3 +0,0 @@] is the
    header git prints for a file whose whole content was removed; it sets
    the cursor to 0, the value the loop takes for "before the first hunk",
    so the three removed lines that follow are skipped one by one and the
    [deleted] marker of the pure deletion is never pushed.  The same on the
    whole text git prints for such a file. *)
Lemma emptied_file_hunk_leaves_no_deleted_marker :
  Js.hunkMatch "@@ -1,3 +0,0 @@" = Some "0" /\
  parseUnifiedDiff (unlines ["@@ -1,3 +0,0 @@"; "-a"; "-b"; "-c"]) = [] /\
  parseUnifiedDiff
    (unlines ["diff --git a/f b/f"; "index 1d95c52..e69de29 100644"; "--- a/f"; "+++ b/f";
              "@@ -1,3 +0,0 @@"; "-a"; "-b"; "-c"; ""]) = [] /\
  iteration "-a" ["-b"; "-c"] 0 [] = (O, 0, []) /\
  iteration "-a" ["-b"; "-c"] 0 [] <>
    ((3 - 1)%nat, 0, [] ++ [mkLineChange deleted 0 0]).
Proof.
  repeat split; try (vm_compute; reflexivity).
  vm_compute. discriminate.
Qed.

(** The pure deletion at a cursor that is not 0: a run of R > 0 removed
    lines that no added line follows makes the loop body push exactly one
    [deleted] record with startLine = endLine = [newLine] and leaves the
    cursor where it is.  The header [@@ -5,3 +5,0 @@] followed by three
    removed lines gives exactly one record, deleted at line 5. *)
Theorem pure_deletion_is_one_marker :
  (forall newLine changes m ms rest,
      newLine <> 0 ->
      runOf "-" (m :: ms) ->
      whileCond "-" rest = false -> whileCond "+" rest = false ->
      iteration m (ms ++ rest) newLine changes =
        ((length (m :: ms) - 1)%nat, newLine,
         changes ++ [mkLineChange deleted newLine newLine]) /\
      loop (m :: ms ++ rest) newLine changes =
        loop rest newLine (changes ++ [mkLineChange deleted newLine newLine])) /\
  parseUnifiedDiff (unlines ["@@ -5,3 +5,0 @@"; "-a"; "-b"; "-c"]) =
    [mkLineChange deleted 5 5].
Proof.
  split; [|vm_compute; reflexivity].
  intros newLine changes m ms rest Hc Hms Hminus Hplus.
  destruct (iteration_deletion newLine changes m ms rest Hc Hms Hminus Hplus) as [Hi Hd].
  replace (length (m :: ms) - 1)%nat with (length ms) by (simpl; lia).
  split; [exact Hi|]. now rewrite loop_cons, Hi, Hd.
Qed.

Lemma pure_deletion_is_one_marker_witness :
  loop ["-a"; "-b"; " ctx"] 5 [] = loop [" ctx"] 5 [mkLineChange deleted 5 5].
Proof.
  refine (proj2 (proj1 pure_deletion_is_one_marker 5 [] "-a" ["-b"] [" ctx"] _ _ _ _)).
  - lia.
  - repeat constructor.
  - reflexivity.
  - reflexivity.
Defined.

(** C3, as the code has it.  At a cursor [newLine] of 1 or more and with
    [newLine + A] at most 2^53, a run of A > 0 added lines that the loop
    meets on its own (the line before it is not a removed line) makes the
    body push exactly one [added] record spanning [newLine .. newLine+A-1]
    and moves the cursor on by A.  The header [@@ -5,0 +5,3 @@] with three
    added lines gives exactly one record, added 5-7. *)
Theorem standalone_insertion_is_added :
  (forall newLine changes p ps rest,
      0 < newLine -> newLine + Z.of_nat (length (p :: ps)) <= maxExact ->
      runOf "+" (p :: ps) -> whileCond "+" rest = false ->
      let A := length (p :: ps) in
      iteration p (ps ++ rest) newLine changes =
        ((A - 1)%nat, newLine + Z.of_nat A,
         changes ++ [mkLineChange added newLine (newLine + Z.of_nat A - 1)]) /\
      loop (p :: ps ++ rest) newLine changes =
        loop rest (newLine + Z.of_nat A)
             (changes ++ [mkLineChange added newLine (newLine + Z.of_nat A - 1)])) /\
  parseUnifiedDiff (unlines ["@@ -5,0 +5,3 @@"; "+a"; "+b"; "+c"]) =
    [mkLineChange added 5 7].
Proof.
  split; [|vm_compute; reflexivity].
  intros newLine changes p ps rest Hpos _ Hps Hrest A.
  assert (Hc : newLine <> 0) by lia.
  pose proof (iteration_insertion newLine changes p ps rest Hc Hps Hrest) as Hi.
  destruct (iteration_added_run p ps rest newLine Hc Hps Hrest) as (_ & Hd & _).
  replace (A - 1)%nat with (length ps) in * by (unfold A; simpl; lia).
  split; [exact Hi|]. rewrite loop_cons, Hi.
  replace (length (p :: ps) - 1)%nat with (length ps) in Hd by (simpl; lia).
  now rewrite Hd.
Qed.

Lemma standalone_insertion_is_added_witness :
  loop ["+a"; "+b"; "+c"; ""] 5 [] = loop [""] 8 [mkLineChange added 5 7].
Proof.
  refine (proj2 (proj1 standalone_insertion_is_added 5 [] "+a" ["+b"; "+c"] [""] _ _ _ _)).
  - lia.
  - vm_compute. discriminate.
  - repeat constructor.
  - reflexivity.
Defined.

(** C3, as it is stated, fails inside a hunk whose header has the new-file
    start 0: the cursor is 0, the added line is skipped and no [added]
    record is pushed. *)
Lemma insertion_after_zero_start_leaves_no_record :
  Js.hunkMatch "@@ -0,0 +0,1 @@" = Some "0" /\
  parseUnifiedDiff (unlines ["@@ -0,0 +0,1 @@"; "+a"]) = [] /\
  iteration "+a" [] 0 [] = (O, 0, []) /\
  iteration "+a" [] 0 [] <>
    ((1 - 1)%nat, 0 + 1, [] ++ [mkLineChange added 0 (0 + 1 - 1)]).
Proof.
  repeat split; try (vm_compute; reflexivity).
  vm_compute. discriminate.
Qed.

(** ** Lines that leave no record *)

(** A turn of the loop never reads past the array: the body moves [i] by
    fewer lines than are left after [lines[i]]. *)
Lemma countWhile_le (p : string) (ls : list string) :
  (countWhile p ls <= length ls)%nat.
Proof. induction ls as [|l ls IH]; simpl; [lia | destruct (Js.startsWith p l); lia]. Qed.

Lemma countWhile_drop_le (p q : string) (ls : list string) :
  (countWhile p ls + countWhile q (drop (countWhile p ls) ls) <= length ls)%nat.
Proof.
  pose proof (countWhile_le p ls).
  pose proof (countWhile_le q (drop (countWhile p ls) ls)) as H2.
  rewrite length_drop in H2. lia.
Qed.

Lemma iteration_moved_le line tl newLine changes :
  (fst (fst (iteration line tl newLine changes)) <= length tl)%nat.
Proof.
  pose proof (countWhile_drop_le "-" "+" (line :: tl)) as Hboth.
  pose proof (countWhile_le "+" (line :: tl)) as Hplus.
  cbn [length] in Hboth, Hplus.
  unfold iteration.
  repeat match goal with
         | |- context [match ?x with _ => _ end] => destruct x
         end; cbn [fst]; lia.
Qed.

(** With the cursor at 0 a line that is no hunk header is skipped. *)
Lemma iteration_before_hunk line tl changes :
  Js.hunkMatch line = None -> iteration line tl 0 changes = (O, 0, changes).
Proof. intros H. unfold iteration. now rewrite H. Qed.

Lemma loop_before_hunk body rest changes :
  Forall (fun l => Js.hunkMatch l = None) body ->
  loop (body ++ rest) 0 changes = loop rest 0 changes.
Proof.
  induction 1 as [|l body Hl _ IH]; [reflexivity|].
  cbn [app]. now rewrite loop_cons, iteration_before_hunk.
Qed.

(** A line that starts with neither '-' nor '+' pushes no record. *)
Lemma iteration_no_change line tl newLine changes :
  Js.startsWith "-" line = false -> Js.startsWith "+" line = false ->
  exists newLine', iteration line tl newLine changes = (O, newLine', changes).
Proof.
  intros Hm Hp. unfold iteration. rewrite Hm, Hp.
  repeat match goal with
         | |- context [match ?x with _ => _ end] => destruct x
         end; eauto.
Qed.

Lemma loop_no_change rest newLine changes :
  Forall (fun l => Js.startsWith "-" l = false /\ Js.startsWith "+" l = false) rest ->
  loop rest newLine changes = changes.
Proof.
  intros H. revert newLine. induction H as [|l rest [Hm Hp] _ IH]; intros newLine.
  - apply loop_nil.
  - rewrite loop_cons.
    destruct (iteration_no_change l rest newLine changes Hm Hp) as [c' ->].
    apply IH.
Qed.

(** C8.  The classifier is a total function: every turn of its loop moves
    the index forward and leaves it inside the array (so no line is read out
    of bounds and nothing is raised), and what is left to scan gets strictly
    shorter.  It returns the empty sequence for the empty text, for a text
    none of whose lines matches the hunk-header pattern, and for a text with
    no line that starts with '-' or '+' (headers and context lines only). *)
Theorem classifier_total_and_empty :
  (forall line tl newLine changes,
      let moved := fst (fst (iteration line tl newLine changes)) in
      (moved <= length tl)%nat /\
      (length (drop moved tl) < length (line :: tl))%nat) /\
  (forall diffOutput, exists changes, parseUnifiedDiff diffOutput = changes) /\
  parseUnifiedDiff "" = [] /\
  (forall diffOutput,
      Forall (fun l => Js.hunkMatch l = None) (Js.split diffOutput) ->
      parseUnifiedDiff diffOutput = []) /\
  (forall diffOutput,
      Forall (fun l => Js.startsWith "-" l = false /\ Js.startsWith "+" l = false)
             (Js.split diffOutput) ->
      parseUnifiedDiff diffOutput = []) /\
  parseUnifiedDiff (unlines ["@@ -1,3 +1,3 @@"; " a"; " b"; " c"; ""]) = [].
Proof.
  repeat split.
  - apply iteration_moved_le.
  - rewrite length_drop. simpl. lia.
  - eauto.
  - intros diffOutput H. unfold parseUnifiedDiff.
    rewrite <- (app_nil_r (Js.split diffOutput)).
    now rewrite loop_before_hunk, loop_nil.
  - intros diffOutput H. now apply loop_no_change.
Qed.

Lemma classifier_total_and_empty_witness :
  parseUnifiedDiff (unlines ["diff --git a/f b/f"; "index 1..2"; "-x"; "+y"]) = [].
Proof.
  refine (proj1 (proj2 (proj2 (proj2 classifier_total_and_empty))) _ _).
  vm_compute. repeat constructor.
Defined.

(** C9.  A hunk header whose new-file start is 0 puts the cursor back to
    0, the value that stands for "before the first hunk": every line after
    it up to the next hunk header is skipped, removed lines included, and the
    hunk contributes no record.  [@@ -1,3 +0,0 @@] is such a header, and a
    diff made of it and three removed lines is classified as no change. *)
Theorem hunk_at_zero_is_skipped :
  (forall header g1 body rest newLine changes,
      Js.hunkMatch header = Some g1 -> Js.parseInt g1 = 0 ->
      Forall (fun l => Js.hunkMatch l = None) body ->
      iteration header (body ++ rest) newLine changes = (O, 0, changes) /\
      loop (header :: body ++ rest) newLine changes = loop rest 0 changes) /\
  (forall line tl changes,
      Js.hunkMatch line = None -> iteration line tl 0 changes = (O, 0, changes)) /\
  option_map Js.parseInt (Js.hunkMatch "@@ -1,3 +0,0 @@") = Some 0 /\
  parseUnifiedDiff (unlines ["@@ -1,3 +0,0 @@"; "-a"; "-b"; "-c"]) = [].
Proof.
  split; [|split; [|split; vm_compute; reflexivity]].
  - intros header g1 body rest newLine changes Hh Hz Hbody.
    assert (Hi : iteration header (body ++ rest) newLine changes = (O, 0, changes)).
    { unfold iteration. now rewrite Hh, Hz. }
    split; [exact Hi|].
    rewrite loop_cons, Hi. cbn [drop]. now apply loop_before_hunk.
  - intros line tl changes. apply iteration_before_hunk.
Qed.

Lemma hunk_at_zero_is_skipped_witness :
  loop ["@@ -1,3 +0,0 @@"; "-a"; "-b"; "-c"; "@@ -9 +7 @@"; "+z"] 4 [] =
  loop ["@@ -9 +7 @@"; "+z"] 0 [].
Proof.
  refine (proj2 (proj1 hunk_at_zero_is_skipped "@@ -1,3 +0,0 @@" "0"
                   ["-a"; "-b"; "-c"] ["@@ -9 +7 @@"; "+z"] 4 [] _ _ _)).
  - reflexivity.
  - reflexivity.
  - repeat constructor.
Defined.

(** ** File headers after a hunk *)

Lemma startsWith_first (c : ascii) (p line : string) :
  Js.startsWith (String c p) line = true ->
  Js.startsWith (String c EmptyString) line = true.
Proof.
  unfold Js.startsWith. destruct line as [|b s]; simpl; [discriminate|].
  destruct (ascii_dec c b); [destruct s; reflexivity | discriminate].
Qed.

(** A line whose first character is none of '@', '-', '+' and ' ' changes
    nothing. *)
Lemma iteration_inert (c : ascii) line tl newLine changes :
  c <> "@"%char -> c <> "-"%char -> c <> "+"%char -> c <> " "%char ->
  Js.startsWith (String c EmptyString) line = true ->
  iteration line tl newLine changes = (O, newLine, changes).
Proof.
  intros Hat Hm Hp Hs Hc. unfold iteration.
  rewrite (hunkMatch_not_at c line Hat Hc).
  rewrite (startsWith_char_neq c "-" line Hm Hc).
  rewrite (startsWith_char_neq c "+" line Hp Hc).
  rewrite (startsWith_char_neq c " " line Hs Hc).
  now destruct (newLine =? 0).
Qed.

(** C10.  Once the cursor is not 0 the classifier does not tell the lines
    that open the next file's diff from the lines of a hunk: a
    [diff --git] or [index] line changes nothing, and a [--- ...] line
    followed by a [+++ ...] line is taken for one removed line paired with
    one added line, which pushes a [modified] record at the cursor left by
    the previous hunk and moves the cursor on by one.  In the diff of two
    files below, the second record comes from the second file's header. *)
Theorem file_headers_after_hunk_are_classified :
  (forall newLine changes oldPath newPath rest,
      newLine <> 0 -> whileCond "+" rest = false ->
      loop (("--- " +:+ oldPath) :: ("+++ " +:+ newPath) :: rest) newLine changes =
      loop rest (newLine + 1) (changes ++ [mkLineChange modified newLine newLine])) /\
  (forall newLine changes line tl,
      Js.startsWith "diff --git" line = true \/ Js.startsWith "index " line = true ->
      iteration line tl newLine changes = (O, newLine, changes)) /\
  parseUnifiedDiff
    (unlines ["diff --git a/one.txt b/one.txt"; "index 1111111..2222222 100644";
              "--- a/one.txt"; "+++ b/one.txt";
              "@@ -1,2 +1,2 @@"; " x"; "-y"; "+z";
              "diff --git a/two.txt b/two.txt"; "index 3333333..4444444 100644";
              "--- a/two.txt"; "+++ b/two.txt";
              "@@ -8 +8 @@"; "-p"; "+q"; ""]) =
    [mkLineChange modified 2 2; mkLineChange modified 3 3; mkLineChange modified 8 8].
Proof.
  split; [|split; [|vm_compute; reflexivity]].
  - intros newLine changes oldPath newPath rest Hc Hrest.
    assert (Hold : runOf "-" ["--- " +:+ oldPath])
      by (repeat constructor; apply startsWith_char; simpl; eauto).
    assert (Hnew : runOf "+" ["+++ " +:+ newPath])
      by (repeat constructor; apply startsWith_char; simpl; eauto).
    pose proof (loop_paired newLine changes Hc ("--- " +:+ oldPath) []
                  ["+++ " +:+ newPath] rest Hold ltac:(discriminate) Hnew Hrest) as H.
    unfold pairedRecords in H.
    cbn [app length Nat.min Nat.ltb Nat.leb Z.of_nat Pos.of_succ_nat] in H.
    change (Z.of_nat 1) with 1 in H.
    now replace (newLine + 1 - 1) with newLine in H by lia.
  - intros newLine changes line tl [H|H]; apply startsWith_first in H.
    + now apply (iteration_inert "d").
    + now apply (iteration_inert "i").
Qed.

Lemma file_headers_after_hunk_are_classified_witness :
  loop ["--- a/two.txt"; "+++ b/two.txt"; "@@ -8 +8 @@"] 3 [] =
  loop ["@@ -8 +8 @@"] 4 [mkLineChange modified 3 3].
Proof.
  refine (proj1 file_headers_after_hunk_are_classified 3 [] "a/two.txt" "b/two.txt"
            ["@@ -8 +8 @@"] _ _).
  - lia.
  - reflexivity.
Defined.

(** ** Order of the records *)

Lemma iteration_app line tl newLine changes :
  iteration line tl newLine changes =
  let '(moved, newLine', pushed) := iteration line tl newLine [] in
  (moved, newLine', changes ++ pushed).
Proof.
  unfold iteration, push.
  repeat match goal with
         | |- context [match ?x with _ => _ end] => destruct x
         end; rewrite ?app_nil_r, <- ?app_assoc; reflexivity.
Qed.

(** What one turn pushes starts at or after the cursor it found, in
    non-decreasing order, and at or before the cursor it leaves, unless the
    turn met a hunk header (then it pushes nothing). *)
Lemma iteration_pushed line tl newLine :
  let '(_, newLine', pushed) := iteration line tl newLine [] in
  nonDecreasing (startLines pushed) /\
  Forall (fun x => newLine <= x) (startLines pushed) /\
  (newLine <= newLine' -> Forall (fun x => x <= newLine') (startLines pushed)).
Proof.
  unfold iteration, push, nonDecreasing, startLines.
  destruct (Js.hunkMatch line);
    repeat match goal with
           | |- context [if ?x then _ else _] => destruct x eqn:?
           end; cbn [app map startLine];
    repeat match goal with
           | H : (_ <? _)%nat = true |- _ => apply Nat.ltb_lt in H
           | H : (_ <? _)%nat = false |- _ => apply Nat.ltb_ge in H
           end;
    (split; [|split; [|intros Hle]]);
    repeat (constructor; try lia).
Qed.

Lemma nonDecreasing_app (l1 l2 : list Z) (c : Z) :
  nonDecreasing l1 -> Forall (fun x => x <= c) l1 ->
  nonDecreasing l2 -> Forall (fun x => c <= x) l2 ->
  nonDecreasing (l1 ++ l2).
Proof.
  unfold nonDecreasing. intros H1 Hle H2 Hge.
  induction l1 as [|a l1 IH]; [exact H2|].
  apply Sorted_inv in H1 as [H1 Hd]. apply Forall_cons in Hle as [Ha Hle].
  cbn [app]. constructor; [now apply IH|].
  destruct l1 as [|b l1]; cbn [app].
  - destruct Hge as [|x l2 Hx _]; constructor. lia.
  - constructor. now apply HdRel_inv in Hd.
Qed.

Lemma loop_nonDecreasing (n : nat) :
  forall rest newLine changes,
    (length rest <= n)%nat ->
    cursorNeverDecreases rest newLine = true ->
    nonDecreasing (startLines changes) ->
    Forall (fun x => x <= newLine) (startLines changes) ->
    nonDecreasing (startLines (loop rest newLine changes)).
Proof.
  induction n as [|n IH]; intros rest newLine changes Hlen Hasc Hsorted Hbound.
  - destruct rest; [now rewrite loop_nil | simpl in Hlen; lia].
  - destruct rest as [|line tl]; [now rewrite loop_nil|].
    rewrite loop_cons, iteration_app.
    revert Hasc. simp cursorNeverDecreases.
    pose proof (iteration_pushed line tl newLine) as Hpushed.
    destruct (iteration line tl newLine []) as [[moved newLine'] pushed].
    cbn. intros [Hle Hasc]%andb_prop. apply Z.leb_le in Hle.
    destruct Hpushed as (Hp1 & Hp2 & Hp3).
    apply IH.
    + rewrite length_drop. simpl in Hlen. lia.
    + exact Hasc.
    + unfold startLines. rewrite map_app. now apply (nonDecreasing_app _ _ newLine).
    + unfold startLines. rewrite map_app. apply Forall_app. split.
      * eapply Forall_impl; [exact Hbound|]. cbn. intros; lia.
      * now apply Hp3.
Qed.

(** C4, as the code has it.  When the cursor is never moved backwards while
    the diff is scanned (every hunk header carries a new-file start at least
    as large as the cursor value reached before it), the [startLine] values
    of the records are non-decreasing in the order of the result. *)
Theorem startLines_nonDecreasing_when_cursor_ascends :
  forall diffOutput,
    cursorNeverDecreases (Js.split diffOutput) 0 = true ->
    nonDecreasing (startLines (parseUnifiedDiff diffOutput)).
Proof.
  intros diffOutput H. unfold parseUnifiedDiff.
  apply (loop_nonDecreasing (length (Js.split diffOutput)));
    [lia | assumption | constructor | constructor].
Qed.

Lemma startLines_nonDecreasing_when_cursor_ascends_witness :
  nonDecreasing (startLines (parseUnifiedDiff
    (unlines ["@@ -1,2 +1,3 @@"; " a"; "-b"; "+c"; "+d"; "@@ -9,2 +10,1 @@"; "-e"; " f"]))).
Proof.
  apply startLines_nonDecreasing_when_cursor_ascends. vm_compute. reflexivity.
Defined.

(** C4, as it is stated, fails: a second hunk header with a smaller
    new-file start moves the cursor backwards, and the records follow. *)
Lemma startLines_decrease_on_descending_hunks :
  parseUnifiedDiff (unlines ["@@ -5,0 +5 @@"; "+a"; "@@ -1,0 +1 @@"; "+b"]) =
    [mkLineChange added 5 5; mkLineChange added 1 1] /\
  ~ nonDecreasing (startLines
      (parseUnifiedDiff (unlines ["@@ -5,0 +5 @@"; "+a"; "@@ -1,0 +1 @@"; "+b"]))).
Proof.
  assert (E : parseUnifiedDiff (unlines ["@@ -5,0 +5 @@"; "+a"; "@@ -1,0 +1 @@"; "+b"]) =
              [mkLineChange added 5 5; mkLineChange added 1 1])
    by (vm_compute; reflexivity).
  split; [exact E|]. rewrite E. cbn. unfold nonDecreasing. intros H.
  apply Sorted_inv in H as [_ H]. apply HdRel_inv in H. lia.
Qed.

(** ** The cache *)

(** C5, as the code has it.  [setMergeBase(newBase)] returns true, holds
    [newBase] and an empty cache afterwards when [newBase] differs from the
    base held; it returns false and changes nothing when [newBase] is the
    base held.  Called twice in a row with the same value, the second call
    returns false, and the first returns true when the value differs from
    the base held before. *)
Theorem setMergeBase_true_iff_base_differs :
  forall this newBase,
    (newBase <> mergeBase this ->
       setMergeBase this newBase = (mkProvider ∅ newBase (enabled this), true)) /\
    (newBase = mergeBase this -> setMergeBase this newBase = (this, false)) /\
    snd (setMergeBase (fst (setMergeBase this newBase)) newBase) = false /\
    (newBase <> mergeBase this ->
       (snd (setMergeBase this newBase),
        snd (setMergeBase (fst (setMergeBase this newBase)) newBase)) = (true, false)).
Proof.
  intros this newBase. unfold setMergeBase.
  destruct (String.eqb_spec (mergeBase this) newBase) as [E|E]; cbn [negb fst snd].
  - rewrite E, String.eqb_refl. cbn. repeat split; congruence.
  - cbn [mergeBase]. rewrite String.eqb_refl. cbn. repeat split; congruence.
Qed.

Lemma setMergeBase_true_iff_base_differs_witness :
  setMergeBase (mkProvider {[ "f" := [] ]} "a" true) "b" = (mkProvider ∅ "b" true, true).
Proof.
  refine (proj1 (setMergeBase_true_iff_base_differs
                   (mkProvider {[ "f" := [] ]} "a" true) "b") _).
  discriminate.
Defined.

(** C5, as it is stated, fails in its last sentence: a first call with the
    base already held returns false, so two calls in a row do not return
    true then false for every value. *)
Lemma setMergeBase_twice_false_false :
  ~ (forall this B,
        snd (setMergeBase this B) = true /\
        snd (setMergeBase (fst (setMergeBase this B)) B) = false) /\
  (snd (setMergeBase (newProvider true) ""),
   snd (setMergeBase (fst (setMergeBase (newProvider true) "")) "")) = (false, false).
Proof.
  split; [|reflexivity].
  intros H. destruct (H (newProvider true) "") as [H1 _]. discriminate H1.
Qed.

Section Cache.

Context {gitService : GitService}.

Lemma lookupOrFetch_hit this relativePath lineChanges :
  cache this !! relativePath = Some lineChanges ->
  lookupOrFetch this relativePath = (lineChanges, this, []).
Proof. intros H. unfold lookupOrFetch. now rewrite H. Qed.

Lemma lookupOrFetch_miss this relativePath :
  cache this !! relativePath = None ->
  lookupOrFetch this relativePath =
    (getLineDiff (mergeBase this) relativePath,
     mkProvider (<[relativePath := getLineDiff (mergeBase this) relativePath]> (cache this))
                (mergeBase this) (enabled this),
     [(mergeBase this, relativePath)]).
Proof. intros H. unfold lookupOrFetch. now rewrite H. Qed.

Lemma begin_awaiting this relativePath base path :
  updateDecorations_begin this (Some relativePath) = Awaiting base path ->
  base = mergeBase this /\ path = relativePath /\ cache this !! relativePath = None.
Proof.
  unfold updateDecorations_begin.
  destruct (negb (enabled this) || String.eqb (mergeBase this) ""); [discriminate|].
  destruct (cache this !! relativePath); [discriminate|].
  intros [= <- <-]. auto.
Qed.

(** *** Entries and pending calls belong to the base held *)

Lemma step_fresh s e :
  fresh s -> noBaseChangeInFlight s e = true -> fresh (step s e).
Proof.
  intros [Hcache Hwait] Hok. unfold fresh.
  destruct e as [newBase| |relativePath|k]; unfold step.
  - unfold setMergeBase. unfold noBaseChangeInFlight in Hok.
    destruct (String.eqb (mergeBase (gutterProvider s)) newBase);
      cbn [negb gutterProvider awaiting cache mergeBase].
    + split; assumption.
    + cbn [orb] in Hok. destruct (awaiting s); [|discriminate].
      split; [intros path lc; rewrite lookup_empty; discriminate | constructor].
  - unfold cacheClear. cbn [gutterProvider awaiting cache mergeBase].
    split; [intros path lc; rewrite lookup_empty; discriminate | exact Hwait].
  - destruct (updateDecorations_begin (gutterProvider s) (Some relativePath))
      as [|lc|base path] eqn:E; try (split; assumption).
    apply begin_awaiting in E as (-> & -> & _).
    cbn [gutterProvider awaiting]. split; [exact Hcache|].
    apply Forall_app. split; [exact Hwait | now repeat constructor].
  - destruct (awaiting s !! k) as [[path base]|] eqn:E; [|split; assumption].
    pose proof (proj1 (Forall_lookup _ _) Hwait k _ E) as Hbase.
    cbn [snd] in Hbase. subst base.
    unfold updateDecorations_resume. cbn [gutterProvider awaiting cache mergeBase].
    split.
    + intros p lc [[<- <-]|[_ H]]%lookup_insert_Some; [reflexivity | now apply Hcache].
    + apply Forall_forall. intros x Hx%list_elem_of_delete_inv.
      revert x Hx. now apply Forall_forall.
Qed.

Lemma run_fresh trace :
  forall s, fresh s -> respects noBaseChangeInFlight s trace = true ->
            fresh (run s trace).
Proof.
  induction trace as [|e trace IH]; intros s Hs Hok; [exact Hs|].
  cbn in Hok. apply andb_prop in Hok as [He Hok].
  cbn. apply IH; [now apply step_fresh | exact Hok].
Qed.

Lemma fresh_serves s : fresh s -> servesCurrentBase s.
Proof.
  intros [Hcache _] relativePath. unfold lookupOrFetch.
  destruct (cache (gutterProvider s) !! relativePath) as [lc|] eqn:E; cbn.
  - now apply Hcache.
  - reflexivity.
Qed.

(** *** One call of [getLineDiff] for each path *)

Lemma step_accounted s e :
  accounted s -> noOverlap s e = true -> accounted (step s e).
Proof.
  intros [Hnd Hin] Hok. unfold accounted.
  destruct e as [newBase| |relativePath|k]; unfold step.
  - unfold setMergeBase.
    destruct (negb (String.eqb (mergeBase (gutterProvider s)) newBase));
      cbn [gutterProvider awaiting fetched cache].
    + split; [constructor | intros path Hp; inversion Hp].
    + split; assumption.
  - cbn [gutterProvider awaiting fetched].
    split; [constructor | intros path Hp; inversion Hp].
  - destruct (updateDecorations_begin (gutterProvider s) (Some relativePath))
      as [|lc|base path] eqn:E; try (split; assumption).
    apply begin_awaiting in E as (-> & -> & Hmiss).
    unfold noOverlap in Hok. apply negb_true_iff, bool_decide_eq_false in Hok.
    cbn [gutterProvider awaiting fetched]. split.
    + apply NoDup_cons. split; [|exact Hnd].
      intros [[x Hx]|Hx]%Hin; [congruence | contradiction].
    + intros path [->|Hp]%elem_of_cons; rewrite fmap_app, elem_of_app.
      * right. right. apply list_elem_of_singleton. reflexivity.
      * destruct (Hin path Hp); auto.
  - destruct (awaiting s !! k) as [[path base]|] eqn:E; [|split; assumption].
    unfold updateDecorations_resume. cbn [gutterProvider awaiting fetched cache].
    split; [exact Hnd|].
    intros p Hp. destruct (Hin p Hp) as [Hc|Hw].
    + left. apply lookup_insert_is_Some'. auto.
    + rewrite (delete_Permutation _ _ _ E) in Hw.
      rewrite fmap_cons in Hw. cbn [fst] in Hw.
      apply elem_of_cons in Hw as [->|Hw]; [|now right].
      left. apply lookup_insert_is_Some'. auto.
Qed.

Lemma run_accounted trace :
  forall s, accounted s -> respects noOverlap s trace = true -> accounted (run s trace).
Proof.
  induction trace as [|e trace IH]; intros s Hs Hok; [exact Hs|].
  cbn in Hok. apply andb_prop in Hok as [He Hok].
  cbn. apply IH; [now apply step_accounted | exact Hok].
Qed.

End Cache.

(** C6, as the code has it.  As long as [setMergeBase] does not change the
    base while a [getLineDiff] is pending, every entry of the cache, and so
    everything a look-up obtains, is the classification against the base
    held at that moment, and every pending call was made for that base: no
    result for an earlier base is stored or served. *)
Theorem no_stale_entry_when_base_changes_at_rest :
  forall (gitService : GitService) (gutterIndicators : bool) (trace : list Event),
    respects noBaseChangeInFlight (start gutterIndicators) trace = true ->
    servesCurrentBase (run (start gutterIndicators) trace) /\
    Forall (fun pending =>
              snd pending = mergeBase (gutterProvider (run (start gutterIndicators) trace)))
           (awaiting (run (start gutterIndicators) trace)).
Proof.
  intros gitService gutterIndicators trace Hok.
  assert (H0 : fresh (start gutterIndicators)).
  { split; [intros path lc; cbn; rewrite lookup_empty; discriminate | constructor]. }
  pose proof (run_fresh trace _ H0 Hok) as H.
  split; [now apply fresh_serves | exact (proj2 H)].
Qed.

Lemma no_stale_entry_when_base_changes_at_rest_witness :
  @servesCurrentBase exampleGit
    (@run exampleGit (start true)
       [SetMergeBase "a"; Begin "f"; Resume 0; SetMergeBase "b"; Begin "f"]).
Proof.
  refine (proj1 (no_stale_entry_when_base_changes_at_rest exampleGit true
                   [SetMergeBase "a"; Begin "f"; Resume 0; SetMergeBase "b"; Begin "f"] _)).
  vm_compute. reflexivity.
Defined.

(** C6, as it is stated, fails: [updateDecorations] stores what
    [getLineDiff] delivers without looking at the base again.  When
    [setMergeBase("b")] returns true between the call of
    [getLineDiff("a", "f")] and its delivery, the classification against
    [a] is stored after the cache was cleared and is what a later look-up
    obtains, although the classification against [b] is empty. *)
Lemma stale_entry_after_base_change :
  snd (setMergeBase (gutterProvider
         (@run exampleGit (start true) [SetMergeBase "a"; Begin "f"])) "b") = true /\
  mergeBase (gutterProvider (@run exampleGit (start true) staleTrace)) = "b" /\
  fst (fst (@lookupOrFetch exampleGit
              (gutterProvider (@run exampleGit (start true) staleTrace)) "f")) =
    [mkLineChange modified 1 1] /\
  @getLineDiff exampleGit "b" "f" = [] /\
  ~ @servesCurrentBase exampleGit (@run exampleGit (start true) staleTrace).
Proof.
  assert (H3 : fst (fst (@lookupOrFetch exampleGit
              (gutterProvider (@run exampleGit (start true) staleTrace)) "f")) =
              [mkLineChange modified 1 1]) by (vm_compute; reflexivity).
  assert (H4 : @getLineDiff exampleGit "b" "f" = []) by (vm_compute; reflexivity).
  repeat split; try (vm_compute; reflexivity); try assumption.
  intros H. specialize (H "f"). rewrite H3 in H.
  change (mergeBase (gutterProvider (@run exampleGit (start true) staleTrace)))
    with "b" in H.
  rewrite H4 in H. discriminate H.
Qed.

(** C7, as the code has it.  A look-up for a path with an entry, the empty
    array included, obtains the entry and calls nothing; a look-up for a
    path without an entry calls [getLineDiff] once, for the base held and
    that path, stores what it delivers (the classification of the diff text
    when git succeeds) under the path and obtains it, and the next look-up
    for the path calls nothing.  As long as [updateDecorations] is not begun
    for a path whose [getLineDiff] is pending, [getLineDiff] is called at
    most once for each path between two clearings of the cache. *)
Theorem lookup_serves_entry_or_fetches_once :
  forall (gitService : GitService),
    (forall this relativePath lineChanges,
        cache this !! relativePath = Some lineChanges ->
        lookupOrFetch this relativePath = (lineChanges, this, [])) /\
    (forall this relativePath,
        cache this !! relativePath = None ->
        lookupOrFetch this relativePath =
          (getLineDiff (mergeBase this) relativePath,
           mkProvider
             (<[relativePath := getLineDiff (mergeBase this) relativePath]> (cache this))
             (mergeBase this) (enabled this),
           [(mergeBase this, relativePath)])) /\
    (forall base relativePath cwd stdout,
        getRepoPath = Some cwd -> cwd <> "" ->
        execAsync (gitDiffCommand base relativePath) cwd = Some stdout ->
        getLineDiff base relativePath = parseUnifiedDiff stdout) /\
    (forall this relativePath,
        snd (lookupOrFetch (snd (fst (lookupOrFetch this relativePath))) relativePath)
        = []) /\
    (forall gutterIndicators trace,
        respects noOverlap (start gutterIndicators) trace = true ->
        fetchedAtMostOnce (run (start gutterIndicators) trace)).
Proof.
  intros gitService. split; [|split; [|split; [|split]]].
  - apply lookupOrFetch_hit.
  - apply lookupOrFetch_miss.
  - intros base relativePath cwd stdout Hrepo Hcwd Hexec. unfold getLineDiff.
    rewrite Hrepo. destruct cwd; [congruence|]. now rewrite Hexec.
  - intros this relativePath.
    destruct (cache this !! relativePath) as [lc|] eqn:E.
    + rewrite (lookupOrFetch_hit _ _ _ E). cbn [fst snd].
      now rewrite (lookupOrFetch_hit _ _ _ E).
    + rewrite (lookupOrFetch_miss _ _ E). cbn [fst snd].
      erewrite lookupOrFetch_hit; [reflexivity|]. cbn [cache].
      apply lookup_insert_eq.
  - intros gutterIndicators trace Hok.
    assert (H0 : accounted (start gutterIndicators)).
    { split; [constructor | intros path Hp; inversion Hp]. }
    exact (proj1 (run_accounted trace _ H0 Hok)).
Qed.

Lemma lookup_serves_entry_or_fetches_once_witness :
  @lookupOrFetch exampleGit (mkProvider {[ "f" := [] ]} "a" true) "f" =
    ([], mkProvider {[ "f" := [] ]} "a" true, []).
Proof.
  refine (proj1 (lookup_serves_entry_or_fetches_once exampleGit)
            (mkProvider {[ "f" := [] ]} "a" true) "f" [] _).
  vm_compute. reflexivity.
Defined.

(** C7, as it is stated, fails in its last part: the cache is consulted
    before the [await] and filled after it, so a second [updateDecorations]
    for the same path that begins in between misses as well and calls
    [getLineDiff] again, with no clearing of the cache in between. *)
Lemma overlapping_lookups_fetch_twice :
  fetched (@run exampleGit (start true) overlappingTrace) = ["f"; "f"] /\
  awaiting (@run exampleGit (start true) overlappingTrace) = [("f", "a"); ("f", "a")] /\
  ~ fetchedAtMostOnce (@run exampleGit (start true) overlappingTrace).
Proof.
  assert (E : fetched (@run exampleGit (start true) overlappingTrace) = ["f"; "f"])
    by (vm_compute; reflexivity).
  repeat split; try (vm_compute; reflexivity).
  unfold fetchedAtMostOnce. rewrite E. intros [H _]%NoDup_cons.
  apply H. constructor.
Qed.

(** ** Shape of the records *)

Lemma countWhile_pos (p line : string) (tl : list string) :
  Js.startsWith p line = true -> (1 <= countWhile p (line :: tl))%nat.
Proof. intros H. cbn [countWhile]. rewrite H. lia. Qed.

(** The loop accumulates: what was pushed before a turn is never touched. *)
Lemma loop_acc (n : nat) :
  forall rest newLine changes,
    (length rest <= n)%nat ->
    loop rest newLine changes = changes ++ loop rest newLine [].
Proof.
  induction n as [|n IH]; intros rest newLine changes Hlen.
  - destruct rest; [now rewrite !loop_nil, app_nil_r | simpl in Hlen; lia].
  - destruct rest as [|line tl]; [now rewrite !loop_nil, app_nil_r|].
    rewrite !loop_cons, iteration_app.
    destruct (iteration line tl newLine []) as [[moved newLine'] pushed].
    assert (Hd : (length (drop moved tl) <= n)%nat)
      by (rewrite length_drop; simpl in Hlen; lia).
    rewrite (IH _ _ (changes ++ pushed) Hd), (IH _ _ pushed Hd).
    now rewrite app_assoc.
Qed.

Lemma iteration_wellFormed line tl newLine :
  0 <= newLine ->
  let '(_, newLine', pushed) := iteration line tl newLine [] in
  0 <= newLine' /\ Forall wellFormed pushed.
Proof.
  intros Hc. unfold iteration, push, wellFormed.
  pose proof (countWhile_pos "+" line tl) as Hplus.
  destruct (Js.hunkMatch line) as [g1|].
  { split; [apply parseInt_nonneg | constructor]. }
  destruct (newLine =? 0) eqn:Hz; [split; [lia | constructor]|].
  apply Z.eqb_neq in Hz.
  repeat match goal with
         | |- context [if ?x then _ else _] => destruct x eqn:?
         end; cbn [app];
    repeat match goal with
           | H : (_ && _) = true |- _ => apply andb_prop in H as [? ?]
           | H : (_ <? _)%nat = true |- _ => apply Nat.ltb_lt in H
           | H : (_ <? _)%nat = false |- _ => apply Nat.ltb_ge in H
           end;
    try specialize (Hplus eq_refl);
    (split; [lia|]);
    repeat (constructor; cbn [startLine endLine type]; try lia; try discriminate).
Qed.

Lemma loop_wellFormed (n : nat) :
  forall rest newLine changes,
    (length rest <= n)%nat -> 0 <= newLine ->
    Forall wellFormed changes ->
    Forall wellFormed (loop rest newLine changes).
Proof.
  induction n as [|n IH]; intros rest newLine changes Hlen Hc Hwf.
  - destruct rest; [now rewrite loop_nil | simpl in Hlen; lia].
  - destruct rest as [|line tl]; [now rewrite loop_nil|].
    rewrite loop_cons, iteration_app.
    pose proof (iteration_wellFormed line tl newLine Hc) as Hit.
    destruct (iteration line tl newLine []) as [[moved newLine'] pushed].
    destruct Hit as [Hc' Hpushed].
    apply IH; [rewrite length_drop; simpl in Hlen; lia | exact Hc' |].
    apply Forall_app. now split.
Qed.

(** Between two hunk headers the cursor moves on by at most one for each
    line the loop consumes, and what a turn pushes ends at or before the
    cursor it leaves. *)
Lemma iteration_advance line tl newLine :
  Js.hunkMatch line = None ->
  let '(moved, newLine', pushed) := iteration line tl newLine [] in
  newLine' <= newLine + Z.of_nat (S moved) /\
  Forall (fun r => endLine r <= newLine') pushed.
Proof.
  intros Hh. unfold iteration, push. rewrite Hh.
  pose proof (countWhile_pos "-" line tl) as Hminus.
  pose proof (countWhile_pos "+" line tl) as Hplus.
  repeat match goal with
         | |- context [if ?x then _ else _] => destruct x eqn:?
         end; cbn [app];
    repeat match goal with
           | H : (_ && _) = true |- _ => apply andb_prop in H as [? ?]
           | H : (_ <? _)%nat = true |- _ => apply Nat.ltb_lt in H
           | H : (_ <? _)%nat = false |- _ => apply Nat.ltb_ge in H
           end;
    try specialize (Hminus eq_refl); try specialize (Hplus eq_refl);
    (split; [lia|]);
    repeat (constructor; cbn [endLine]; try lia).
Qed.

Lemma loop_exact (total n : nat) :
  forall rest newLine changes,
    (length rest <= n)%nat -> (length rest <= total)%nat ->
    Forall (fun line => forall g1, Js.hunkMatch line = Some g1 ->
                                   Js.parseInt g1 + Z.of_nat total <= maxExact) rest ->
    newLine = 0 \/ newLine + Z.of_nat (length rest) <= maxExact ->
    Forall (fun r => endLine r <= maxExact) changes ->
    Forall (fun r => endLine r <= maxExact) (loop rest newLine changes).
Proof.
  induction n as [|n IH]; intros rest newLine changes Hlen Htotal Hheaders Hc Hch.
  - destruct rest; [now rewrite loop_nil | simpl in Hlen; lia].
  - destruct rest as [|line tl]; [now rewrite loop_nil|].
    rewrite loop_cons.
    apply Forall_cons in Hheaders as [Hline Htl].
    destruct (Js.hunkMatch line) as [g1|] eqn:Hh.
    + unfold iteration. rewrite Hh. rewrite drop_0.
      specialize (Hline g1 eq_refl). simpl in Hlen, Htotal.
      apply IH; [lia | lia | exact Htl | right; lia | exact Hch].
    + destruct Hc as [->|Hc].
      { rewrite iteration_before_hunk by exact Hh. rewrite drop_0.
        simpl in Hlen, Htotal.
        apply IH; [lia | lia | exact Htl | now left | exact Hch]. }
      rewrite iteration_app.
      pose proof (iteration_moved_le line tl newLine []) as Hmoved.
      pose proof (iteration_advance line tl newLine Hh) as Hadv.
      destruct (iteration line tl newLine []) as [[moved newLine'] pushed].
      cbn [fst] in Hmoved. destruct Hadv as [Hadv Hpushed]. simpl in Hlen, Htotal, Hc.
      assert (Hc' : newLine' + Z.of_nat (length (drop moved tl)) <= maxExact)
        by (rewrite length_drop; lia).
      apply IH.
      * rewrite length_drop. lia.
      * rewrite length_drop. lia.
      * now apply Forall_drop.
      * now right.
      * apply Forall_app. split; [exact Hch|].
        eapply Forall_impl; [exact Hpushed|]. cbn. intros r Hr. lia.
Qed.

Lemma lineNumbersExact_headers (lines : list string) :
  lineNumbersExact lines = true ->
  Forall (fun line => forall g1, Js.hunkMatch line = Some g1 ->
                                 Js.parseInt g1 + Z.of_nat (length lines) <= maxExact) lines.
Proof.
  unfold lineNumbersExact. intros H. apply Forall_forall. intros line Hin g1 Hg.
  rewrite forallb_forall in H. specialize (H line (proj1 (list_elem_of_In _ _) Hin)).
  rewrite Hg in H. now apply Z.leb_le.
Qed.

(** X1.  On a text whose line numbers stay exact, every record of the
    classifier starts at line 1 or later, ends where it starts or later and
    at 2^53 at the latest, and every [deleted] record is a single line
    (startLine = endLine). *)
Theorem records_are_wellFormed :
  forall diffOutput,
    lineNumbersExact (Js.split diffOutput) = true ->
    Forall (fun r => wellFormed r /\ endLine r <= maxExact) (parseUnifiedDiff diffOutput).
Proof.
  intros diffOutput H. apply Forall_and. split.
  - unfold parseUnifiedDiff.
    apply (loop_wellFormed (length (Js.split diffOutput))); [lia | lia | constructor].
  - unfold parseUnifiedDiff.
    apply (loop_exact (length (Js.split diffOutput)) (length (Js.split diffOutput)));
      [lia | lia | now apply lineNumbersExact_headers | now left | constructor].
Qed.

Lemma records_are_wellFormed_witness :
  Forall (fun r => wellFormed r /\ endLine r <= maxExact)
    (parseUnifiedDiff (unlines ["@@ -3,2 +3,3 @@"; "-a"; "+b"; "+c"; " d"; "-e"])).
Proof.
  apply records_are_wellFormed. vm_compute. reflexivity.
Defined.

(** ** Records do not overlap *)

Lemma iteration_liesBefore line tl newLine :
  let '(_, newLine', pushed) := iteration line tl newLine [] in
  StronglySorted liesBefore pushed /\
  Forall (fun r => newLine <= startLine r) pushed /\
  (newLine <= newLine' ->
   Forall (fun r => startLine r <= newLine' /\
                    (type r <> deleted -> endLine r < newLine')) pushed).
Proof.
  unfold iteration, push, liesBefore.
  destruct (Js.hunkMatch line);
    repeat match goal with
           | |- context [if ?x then _ else _] => destruct x eqn:?
           end; cbn [app];
    repeat match goal with
           | H : (_ <? _)%nat = true |- _ => apply Nat.ltb_lt in H
           | H : (_ <? _)%nat = false |- _ => apply Nat.ltb_ge in H
           end;
    (split; [|split; [|intros Hle]]);
    repeat (constructor; cbn [startLine endLine type]; try lia; try congruence).
Qed.

Lemma loop_liesBefore (n : nat) :
  forall rest newLine changes,
    (length rest <= n)%nat ->
    cursorNeverDecreases rest newLine = true ->
    StronglySorted liesBefore changes ->
    Forall (fun r => startLine r <= newLine /\
                     (type r <> deleted -> endLine r < newLine)) changes ->
    StronglySorted liesBefore (loop rest newLine changes).
Proof.
  induction n as [|n IH]; intros rest newLine changes Hlen Hasc Hsorted Hbound.
  - destruct rest; [now rewrite loop_nil | simpl in Hlen; lia].
  - destruct rest as [|line tl]; [now rewrite loop_nil|].
    rewrite loop_cons, iteration_app.
    revert Hasc. simp cursorNeverDecreases.
    pose proof (iteration_liesBefore line tl newLine) as Hpushed.
    destruct (iteration line tl newLine []) as [[moved newLine'] pushed].
    cbn. intros [Hle Hasc]%andb_prop. apply Z.leb_le in Hle.
    destruct Hpushed as (Hp1 & Hp2 & Hp3).
    apply IH.
    + rewrite length_drop. simpl in Hlen. lia.
    + exact Hasc.
    + apply StronglySorted_app. split; [|split; assumption].
      intros r1 r2 H1 H2.
      pose proof (proj1 (Forall_forall _ _) Hbound r1 H1) as [Ha Hb].
      pose proof (proj1 (Forall_forall _ _) Hp2 r2 H2) as Hc. cbn beta in Hc.
      unfold liesBefore. split; [lia | intros Ht; specialize (Hb Ht); lia].
    + apply Forall_app. split; [|now apply Hp3].
      eapply Forall_impl; [exact Hbound|]. cbn.
      intros r [Ha Hb]. split; [lia | intros Ht; specialize (Hb Ht); lia].
Qed.

(** X2.  On a text whose line numbers stay exact and while the cursor is
    never moved backwards, the records come in order and do not overlap: of
    any two records the earlier one does not start later, and unless it is a
    [deleted] marker all its lines lie before the first line of the later
    one.  So no line of the new file is covered by two [added] or [modified]
    records. *)
Theorem records_do_not_overlap :
  forall diffOutput,
    lineNumbersExact (Js.split diffOutput) = true ->
    cursorNeverDecreases (Js.split diffOutput) 0 = true ->
    StronglySorted liesBefore (parseUnifiedDiff diffOutput).
Proof.
  intros diffOutput _ H. unfold parseUnifiedDiff.
  apply (loop_liesBefore (length (Js.split diffOutput)));
    [lia | assumption | constructor | constructor].
Qed.

Lemma records_do_not_overlap_witness :
  StronglySorted liesBefore (parseUnifiedDiff
    (unlines ["@@ -1,4 +1,4 @@"; " a"; "-b"; "-c"; "+d"; " e"; "+f";
              "@@ -20,2 +20,1 @@"; "-g"; " h"])).
Proof.
  apply records_do_not_overlap; vm_compute; reflexivity.
Defined.

(** ** Hunks are classified one by one *)

Lemma countWhile_app_stop (p : string) (l rest : list string) :
  whileCond p rest = false -> countWhile p (l ++ rest) = countWhile p l.
Proof.
  intros Hrest. induction l as [|x l IH]; cbn [app countWhile].
  - destruct rest as [|y rest]; [reflexivity|]. cbn in *. now rewrite Hrest.
  - now rewrite IH.
Qed.

(** The loop body looks ahead only as far as the two runs go: lines after a
    line that starts with neither '-' nor '+' do not matter to it. *)
Lemma iteration_app_stop line tl rest newLine changes :
  whileCond "-" rest = false -> whileCond "+" rest = false ->
  iteration line (tl ++ rest) newLine changes = iteration line tl newLine changes.
Proof.
  intros Hm Hp. unfold iteration.
  change (line :: tl ++ rest) with ((line :: tl) ++ rest).
  rewrite !(countWhile_app_stop "-" (line :: tl) rest Hm).
  rewrite !(countWhile_app_stop "+" (line :: tl) rest Hp).
  rewrite (drop_app_le (line :: tl) rest) by apply countWhile_le.
  now rewrite !(countWhile_app_stop "+" _ rest Hp).
Qed.

Lemma loop_app_header (n : nat) header g1 after :
  Js.hunkMatch header = Some g1 ->
  forall before newLine changes,
    (length before <= n)%nat ->
    loop (before ++ header :: after) newLine changes =
    loop (header :: after) 0 (loop before newLine changes).
Proof.
  intros Hh.
  assert (Hm : whileCond "-" (header :: after) = false).
  { cbn. apply (startsWith_char_neq "@" "-"); [discriminate|]. eapply hunkMatch_at, Hh. }
  assert (Hp : whileCond "+" (header :: after) = false).
  { cbn. apply (startsWith_char_neq "@" "+"); [discriminate|]. eapply hunkMatch_at, Hh. }
  assert (Hreset : forall c ch, loop (header :: after) c ch = loop after (Js.parseInt g1) ch).
  { intros c ch. rewrite loop_cons. unfold iteration. now rewrite Hh. }
  induction n as [|n IH]; intros before newLine changes Hlen.
  - destruct before; [|simpl in Hlen; lia].
    cbn [app]. now rewrite loop_nil, !Hreset.
  - destruct before as [|line tl]; [cbn [app]; now rewrite loop_nil, !Hreset|].
    cbn [app]. rewrite (loop_cons line (tl ++ header :: after)), (loop_cons line tl).
    rewrite iteration_app_stop by assumption.
    pose proof (iteration_moved_le line tl newLine changes) as Hmoved.
    destruct (iteration line tl newLine changes) as [[moved newLine'] changes'].
    cbn [fst] in Hmoved. rewrite drop_app_le by exact Hmoved.
    apply IH. rewrite length_drop. simpl in Hlen. lia.
Qed.

Lemma split_nonempty (s : string) : Js.split s <> [].
Proof.
  destruct s as [|c s]; cbn; [discriminate|].
  destruct (Ascii.eqb c "010"); [discriminate|].
  destruct (Js.split s); discriminate.
Qed.

Lemma split_app_newline (t1 t2 : string) :
  Js.split (t1 +:+ String "010" t2) = Js.split t1 ++ Js.split t2.
Proof.
  induction t1 as [|c t1 IH]; [reflexivity|].
  change (String c t1 +:+ String "010" t2) with (String c (t1 +:+ String "010" t2)).
  cbn [Js.split]. rewrite IH.
  destruct (Ascii.eqb c "010"); [reflexivity|].
  pose proof (split_nonempty t1).
  destruct (Js.split t1); [congruence | reflexivity].
Qed.

(** X3.  A hunk header starts afresh: when the second of two texts begins
    with a hunk header, the classification of the first text, a line feed
    and the second text is the classification of the first followed by the
    classification of the second. *)
Theorem hunks_are_classified_independently :
  forall t1 t2 header after g1,
    Js.split t2 = header :: after -> Js.hunkMatch header = Some g1 ->
    parseUnifiedDiff (t1 +:+ String "010" t2) =
    parseUnifiedDiff t1 ++ parseUnifiedDiff t2.
Proof.
  intros t1 t2 header after g1 Hsplit Hh. unfold parseUnifiedDiff.
  rewrite split_app_newline, Hsplit.
  rewrite (loop_app_header (length (Js.split t1)) header g1 after Hh) by lia.
  apply (loop_acc (length (header :: after))). lia.
Qed.

Lemma hunks_are_classified_independently_witness :
  parseUnifiedDiff (unlines ["@@ -1 +1 @@"; "-a"] +:+ String "010"
                      (unlines ["@@ -9 +9,2 @@"; "-b"; "+c"; "+d"])) =
  parseUnifiedDiff (unlines ["@@ -1 +1 @@"; "-a"]) ++
  parseUnifiedDiff (unlines ["@@ -9 +9,2 @@"; "-b"; "+c"; "+d"]).
Proof.
  refine (hunks_are_classified_independently _ _ "@@ -9 +9,2 @@" ["-b"; "+c"; "+d"] "9" _ _);
    reflexivity.
Defined.

Lemma loop_wellFormed_all diffOutput : Forall wellFormed (parseUnifiedDiff diffOutput).
Proof.
  unfold parseUnifiedDiff.
  apply (loop_wellFormed (length (Js.split diffOutput))); [lia | lia | constructor].
Qed.

(** ** Ranges for the editor *)

Lemma allRanges_pushRange d t range :
  Forall (fun x => x = range \/ x ∈ allRanges d) (allRanges (pushRange d t range)).
Proof.
  apply Forall_forall. intros x. unfold allRanges.
  destruct t; cbn [pushRange addedRanges modifiedRanges deletedRanges];
    rewrite !elem_of_app, ?list_elem_of_singleton; tauto.
Qed.

Lemma updateDecorations_loop_in_document lineCount lineChanges :
  forall d,
    Forall (fun x => 0 <= rangeStart x <= rangeEnd x /\ rangeEnd x <= lineCount - 1)
           (allRanges d) ->
    exists d', updateDecorations_loop lineCount lineChanges d = Some d' /\
      Forall (fun x => 0 <= rangeStart x <= rangeEnd x /\ rangeEnd x <= lineCount - 1)
             (allRanges d').
Proof.
  induction lineChanges as [|change rest IH]; intros d Hd; cbn [updateDecorations_loop].
  - eauto.
  - destruct (Z.leb_spec lineCount (Z.max 0 (startLine change - 1))) as [Hout|Hin].
    + now apply IH.
    + unfold vscodeRange.
      destruct (Z.ltb_spec (Z.max 0 (startLine change - 1)) 0); [lia|].
      destruct (Z.ltb_spec (Z.min (Z.max 0 (endLine change - 1)) (lineCount - 1)) 0); [lia|].
      cbn [orb].
      destruct (Z.leb_spec (Z.max 0 (startLine change - 1))
                  (Z.min (Z.max 0 (endLine change - 1)) (lineCount - 1)));
        apply IH; (eapply Forall_impl; [apply allRanges_pushRange|]);
        intros x [->|Hx]; cbn [rangeStart rangeEnd];
        try lia; exact (proj1 (Forall_forall _ _) Hd x Hx).
Qed.

(** X4.  Whatever the records and the number of lines of the document,
    building the ranges raises nothing (no [vscode.Range] gets a negative
    line), and every range handed to the editor lies inside the document:
    0 <= first line <= last line <= lineCount - 1. *)
Theorem ranges_lie_in_document :
  forall lineCount lineChanges,
    exists d, updateDecorations_ranges lineCount lineChanges = Some d /\
      Forall (fun x => 0 <= rangeStart x <= rangeEnd x /\ rangeEnd x <= lineCount - 1)
             (allRanges d).
Proof.
  intros lineCount lineChanges.
  apply updateDecorations_loop_in_document. constructor.
Qed.

Lemma shown_cons lineCount t r rest :
  shown lineCount t (r :: rest) =
  if decide (type r = t /\ startLine r <= lineCount)
  then r :: shown lineCount t rest else shown lineCount t rest.
Proof. unfold shown. now rewrite filter_cons. Qed.

Lemma updateDecorations_loop_shown lineCount lineChanges :
  Forall wellFormed lineChanges ->
  forall d,
    updateDecorations_loop lineCount lineChanges d =
    Some (mkDecorations
            (addedRanges d ++ map (rangeOf lineCount) (shown lineCount added lineChanges))
            (modifiedRanges d ++ map (rangeOf lineCount) (shown lineCount modified lineChanges))
            (deletedRanges d ++ map (rangeOf lineCount) (shown lineCount deleted lineChanges))).
Proof.
  induction 1 as [|r rest [[H1 H2] _] _ IH]; intros d; cbn [updateDecorations_loop].
  - unfold shown. cbn. rewrite !app_nil_r. now destruct d.
  - rewrite !shown_cons.
    replace (Z.max 0 (startLine r - 1)) with (startLine r - 1) by lia.
    replace (Z.max 0 (endLine r - 1)) with (endLine r - 1) by lia.
    destruct (Z.leb_spec lineCount (startLine r - 1)) as [Hout|Hin].
    + rewrite IH. repeat case_decide; try lia; reflexivity.
    + unfold vscodeRange.
      destruct (Z.ltb_spec (startLine r - 1) 0); [lia|].
      destruct (Z.ltb_spec (Z.min (endLine r - 1) (lineCount - 1)) 0); [lia|].
      destruct (Z.leb_spec (startLine r - 1) (Z.min (endLine r - 1) (lineCount - 1))); [|lia].
      cbn [orb]. rewrite IH. fold (rangeOf lineCount r).
      destruct (type r) eqn:Ht; cbn [pushRange addedRanges modifiedRanges deletedRanges];
        repeat case_decide;
        repeat match goal with H : _ /\ _ |- _ => destruct H end;
        try congruence; try lia;
        try (exfalso; match goal with H : ~ (_ /\ _) |- _ => apply H; split; [reflexivity | lia] end);
        cbn [map]; rewrite <- ?app_assoc; reflexivity.
Qed.

(** X5.  For the records of the classifier and a document of [lineCount]
    lines, the editor gets, for each type, exactly one range for every
    record of that type that starts at or before the last line of the
    document, in the order of the records: the record's lines counted from 0
    and cut at the last line of the document.  Records that start after the
    last line are left out. *)
Theorem ranges_of_classified_diff :
  forall lineCount diffOutput,
    updateDecorations_ranges lineCount (parseUnifiedDiff diffOutput) =
    Some (mkDecorations
            (map (rangeOf lineCount) (shown lineCount added (parseUnifiedDiff diffOutput)))
            (map (rangeOf lineCount) (shown lineCount modified (parseUnifiedDiff diffOutput)))
            (map (rangeOf lineCount) (shown lineCount deleted (parseUnifiedDiff diffOutput)))).
Proof.
  intros lineCount diffOutput. unfold updateDecorations_ranges.
  now rewrite updateDecorations_loop_shown by apply loop_wellFormed_all.
Qed.

(** ** When git is asked for a diff *)

Section Gutter.

Context {gitService : GitService}.

Lemma begin_returned this relativePath :
  enabled this = false \/ mergeBase this = "" ->
  updateDecorations_begin this relativePath = Returned.
Proof.
  unfold updateDecorations_begin. intros [->| ->]; [reflexivity|].
  now rewrite orb_true_r.
Qed.

Lemma nothingBegun_refl s : nothingBegun s s.
Proof. repeat split; [reflexivity | reflexivity | auto]. Qed.

Lemma nothingBegun_trans s1 s2 s3 :
  nothingBegun s1 s2 -> nothingBegun s2 s3 -> nothingBegun s1 s3.
Proof.
  intros (Hw1 & Hf1 & Hc1) (Hw2 & Hf2 & Hc2). repeat split.
  - now transitivity (awaiting s2).
  - now transitivity (fetched s2).
  - intros path lineChanges H.
    destruct (Hc2 path lineChanges H) as [H2|(base & Hin & ->)]; [now apply Hc1|].
    right. exists base. split; [|reflexivity]. now apply (elem_of_sublist _ _ _ Hin).
Qed.

Lemma step_idle s e :
  enabled (gutterProvider s) = false \/
    (mergeBase (gutterProvider s) = "" /\ (forall b, e = SetMergeBase b -> b = "")) ->
  let s' := step s e in
  enabled (gutterProvider s') = enabled (gutterProvider s) /\
  (enabled (gutterProvider s) = false \/ mergeBase (gutterProvider s') = "") /\
  nothingBegun s s'.
Proof.
  intros Hidle. destruct e as [newBase| |relativePath|k]; unfold step.
  - unfold setMergeBase.
    destruct (String.eqb_spec (mergeBase (gutterProvider s)) newBase) as [E|E];
      cbn [negb gutterProvider awaiting fetched cache mergeBase enabled].
    + split; [reflexivity|]. split; [|repeat split; cbn; auto; reflexivity].
      destruct Hidle as [H|[H _]]; [now left | now right].
    + split; [reflexivity|]. split.
      * destruct Hidle as [H|[_ H]]; [now left | right; now apply H].
      * repeat split; cbn; [reflexivity | apply sublist_nil_l|].
        intros path lineChanges H. now rewrite lookup_empty in H.
  - cbn. split; [reflexivity|]. split.
    + destruct Hidle as [H|[H _]]; [now left | now right].
    + repeat split; cbn; [reflexivity | apply sublist_nil_l|].
      intros path lineChanges H. now rewrite lookup_empty in H.
  - rewrite begin_returned by (destruct Hidle as [H|[H _]]; auto).
    split; [reflexivity|]. split; [|apply nothingBegun_refl].
    destruct Hidle as [H|[H _]]; [now left | now right].
  - destruct (awaiting s !! k) as [[path base]|] eqn:E.
    + cbn. split; [reflexivity|]. split.
      * destruct Hidle as [H|[H _]]; [now left | now right].
      * repeat split; cbn; [apply sublist_delete | reflexivity|].
        intros path' lineChanges H.
        destruct (decide (path = path')) as [->|Hne].
        -- rewrite lookup_insert_eq in H. injection H as <-. right. exists base.
           split; [|reflexivity]. now apply (list_elem_of_lookup_2 _ k).
        -- rewrite lookup_insert_ne in H by exact Hne. now left.
    + split; [reflexivity|]. split; [|apply nothingBegun_refl].
      destruct Hidle as [H|[H _]]; [now left | now right].
Qed.

Lemma run_idle trace :
  forall s,
    enabled (gutterProvider s) = false \/
      (mergeBase (gutterProvider s) = "" /\
       Forall (fun e => forall b, e = SetMergeBase b -> b = "") trace) ->
    enabled (gutterProvider (run s trace)) = enabled (gutterProvider s) /\
    nothingBegun s (run s trace).
Proof.
  induction trace as [|e trace IH]; intros s Hidle;
    [split; [reflexivity | apply nothingBegun_refl]|].
  cbn [run foldl]. fold (run (step s e) trace).
  assert (Hstep : enabled (gutterProvider s) = false \/
            (mergeBase (gutterProvider s) = "" /\ (forall b, e = SetMergeBase b -> b = ""))).
  { destruct Hidle as [H|[H1 H2]]; [now left|]. right. split; [exact H1|].
    now apply Forall_cons in H2 as [H2 _]. }
  destruct (step_idle s e Hstep) as (He & Hb & Hstepped).
  destruct (IH (step s e)) as [He' Hrun].
  { destruct Hidle as [H|[_ H2]]; [left; congruence|].
    destruct Hb as [Hb|Hb]; [left; congruence|]. right. split; [exact Hb|].
    now apply Forall_cons in H2 as [_ H2]. }
  split; [congruence|]. now apply (nothingBegun_trans s (step s e)).
Qed.

(** What a series of [updateDecorations] calls begun in one go leaves
    behind: a pending [getLineDiff] for each path without an entry. *)
Lemma run_begins visible :
  forall s,
    enabled (gutterProvider s) = true -> mergeBase (gutterProvider s) <> "" ->
    run s (Begin <$> visible) =
    mkExtension (gutterProvider s)
      (awaiting s ++
       map (fun p => (p, mergeBase (gutterProvider s)))
           (filter (fun p => cache (gutterProvider s) !! p = None) visible))
      (rev (filter (fun p => cache (gutterProvider s) !! p = None) visible) ++ fetched s).
Proof.
  induction visible as [|p visible IH]; intros s Hen Hbase.
  - cbn. rewrite app_nil_r. now destruct s.
  - cbn [fmap list_fmap run foldl]. fold (run (step s (Begin p)) (Begin <$> visible)).
    rewrite filter_cons. unfold step, updateDecorations_begin.
    rewrite Hen, (proj2 (String.eqb_neq _ _) Hbase). cbn [negb orb].
    destruct (cache (gutterProvider s) !! p) as [lc|] eqn:E.
    + rewrite decide_False by congruence. now apply IH.
    + rewrite decide_True by reflexivity.
      rewrite IH by assumption.
      cbn [gutterProvider awaiting fetched map rev].
      now rewrite <- !app_assoc.
Qed.

End Gutter.

(** [toggle()] with the indicators on switches them off and does nothing
    else to the cache and the pending calls. *)
Lemma toggle_off (gitService : GitService) (visible : list string) (s : Extension) :
  enabled (gutterProvider s) = true ->
  toggle visible s = setEnabled false s.
Proof. unfold toggle. cbn. now intros ->. Qed.

(** X6.  From a state in which the gutter indicators are off (a provider
    constructed so, or one [toggle()] has switched off, whatever it holds
    and whatever is pending), and for as long as they are not switched on
    again, no [getLineDiff] is called, whatever else is done: the calls
    pending afterwards were pending before, and an entry of the cache was
    one before or is what a call pending before delivered (such a call
    still stores its result).  The same holds from a state without a base
    for as long as [setMergeBase] gets no other value than the empty
    string. *)
Theorem nothing_fetched_when_off_or_without_base :
  forall (gitService : GitService) (s : Extension) (trace : list Event),
    enabled (gutterProvider s) = false \/
      (mergeBase (gutterProvider s) = "" /\
       Forall (fun e => forall b, e = SetMergeBase b -> b = "") trace) ->
    enabled (gutterProvider (run s trace)) = enabled (gutterProvider s) /\
    awaiting (run s trace) `sublist_of` awaiting s /\
    fetched (run s trace) `sublist_of` fetched s /\
    forall path lineChanges,
      cache (gutterProvider (run s trace)) !! path = Some lineChanges ->
      cache (gutterProvider s) !! path = Some lineChanges \/
      exists base, (path, base) ∈ awaiting s /\ lineChanges = getLineDiff base path.
Proof.
  intros gitService s trace H.
  destruct (run_idle trace s H) as (He & Hw & Hf & Hc). auto.
Qed.

Lemma nothing_fetched_when_off_or_without_base_witness :
  let off := @toggle exampleGit ["f"]
               (@run exampleGit (start true) [SetMergeBase "a"; Begin "f"]) in
  let after := @run exampleGit off [Begin "g"; Resume 0; CacheClear; Begin "f"; Resume 0] in
  awaiting off = [("f", "a")] /\
  enabled (gutterProvider after) = false /\
  awaiting after `sublist_of` [("f", "a")].
Proof.
  cbv zeta. split; [reflexivity|].
  destruct (nothing_fetched_when_off_or_without_base exampleGit
              (@toggle exampleGit ["f"]
                 (@run exampleGit (start true) [SetMergeBase "a"; Begin "f"]))
              [Begin "g"; Resume 0; CacheClear; Begin "f"; Resume 0]
              (or_introl eq_refl)) as (He & Hw & _).
  exact (conj He Hw).
Defined.

(** X7.  With the indicators on and a base held, [decorateVisible()] uses
    what the cache has: it leaves the provider as it is and calls
    [getLineDiff], for the base held, exactly for the visible paths that have
    no entry, once for each editor that shows such a path. *)
Theorem decorateVisible_fetches_missing_entries :
  forall (gitService : GitService) (visible : list string) (s : Extension),
    enabled (gutterProvider s) = true -> mergeBase (gutterProvider s) <> "" ->
    gutterProvider (decorateVisible visible s) = gutterProvider s /\
    awaiting (decorateVisible visible s) =
      awaiting s ++
      map (fun p => (p, mergeBase (gutterProvider s)))
          (filter (fun p => cache (gutterProvider s) !! p = None) visible).
Proof.
  intros gitService visible s Hen Hbase. unfold decorateVisible.
  now rewrite run_begins.
Qed.

Lemma decorateVisible_fetches_missing_entries_witness :
  awaiting (@decorateVisible exampleGit ["f"; "g"; "g"]
              (mkExtension (mkProvider {[ "f" := [] ]} "a" true) [] [])) =
  [("g", "a"); ("g", "a")].
Proof.
  refine (proj2 (decorateVisible_fetches_missing_entries exampleGit ["f"; "g"; "g"]
                   (mkExtension (mkProvider {[ "f" := [] ]} "a" true) [] []) _ _)).
  - reflexivity.
  - discriminate.
Defined.

(** X8.  [syncGutter()] with the indicators on: when the tree's merge base
    is not empty and differs from the base held, the provider holds the new
    base and an empty cache afterwards and [getLineDiff] has been called for
    the new base once for every visible editor; when it is the base held,
    the cache is kept and only the visible paths without an entry are
    fetched. *)
Theorem syncGutter_refetches_only_on_a_new_base :
  forall (gitService : GitService) (treeMergeBase : string) (visible : list string)
         (s : Extension),
    enabled (gutterProvider s) = true -> treeMergeBase <> "" ->
    (treeMergeBase <> mergeBase (gutterProvider s) ->
       gutterProvider (syncGutter treeMergeBase visible s) =
         mkProvider ∅ treeMergeBase true /\
       awaiting (syncGutter treeMergeBase visible s) =
         awaiting s ++ map (fun p => (p, treeMergeBase)) visible) /\
    (treeMergeBase = mergeBase (gutterProvider s) ->
       gutterProvider (syncGutter treeMergeBase visible s) = gutterProvider s /\
       awaiting (syncGutter treeMergeBase visible s) =
         awaiting s ++
         map (fun p => (p, treeMergeBase))
             (filter (fun p => cache (gutterProvider s) !! p = None) visible)).
Proof.
  intros gitService treeMergeBase visible s Hen Hbase. unfold syncGutter, step, setMergeBase.
  split; intros E.
  - assert (E' : String.eqb (mergeBase (gutterProvider s)) treeMergeBase = false)
      by (apply String.eqb_neq; congruence).
    rewrite E'. cbn [negb snd]. unfold refreshAll.
    rewrite run_begins by (cbn; assumption).
    cbn [step cacheClear gutterProvider awaiting cache mergeBase enabled].
    rewrite Hen. split; [reflexivity|].
    f_equal. f_equal. induction visible as [|p visible IH]; [reflexivity|].
    rewrite filter_cons, decide_True by apply lookup_empty. now f_equal.
  - subst treeMergeBase. rewrite String.eqb_refl. cbn [negb snd]. unfold decorateVisible.
    rewrite run_begins by (cbn; assumption).
    cbn [gutterProvider awaiting]. split; reflexivity.
Qed.

Lemma syncGutter_refetches_only_on_a_new_base_witness :
  awaiting (@syncGutter exampleGit "b" ["f"; "g"]
              (mkExtension (mkProvider {[ "f" := [] ]} "a" true) [] [])) =
  [("f", "b"); ("g", "b")].
Proof.
  refine (proj2 (proj1 (syncGutter_refetches_only_on_a_new_base exampleGit "b" ["f"; "g"]
                   (mkExtension (mkProvider {[ "f" := [] ]} "a" true) [] []) _ _) _)).
  - reflexivity.
  - discriminate.
  - discriminate.
Defined.

(** ** The list of changed files *)

Lemma parseDiffOutput_line_app files line :
  parseDiffOutput_line files line = files ++ parseDiffOutput_line [] line.
Proof.
  unfold parseDiffOutput_line.
  destruct (JsString.splitChar "009" line) as [|statusCode [|part1 parts']];
    rewrite ?app_nil_r; try reflexivity.
  now destruct (Js.startsWith "R" statusCode || Js.startsWith "C" statusCode).
Qed.

Lemma foldl_parseDiffOutput_line lines :
  forall files,
    foldl parseDiffOutput_line files lines =
    files ++ concat (map (parseDiffOutput_line []) lines).
Proof.
  induction lines as [|l lines IH]; intros files; cbn [foldl map concat].
  - now rewrite app_nil_r.
  - rewrite IH, (parseDiffOutput_line_app files l). now rewrite <- app_assoc.
Qed.

Lemma first_startsWith (c : ascii) (s : string) :
  JsString.first s = Some (String c EmptyString) <->
  Js.startsWith (String c EmptyString) s = true.
Proof.
  rewrite startsWith_char. destruct s as [|a s]; cbn.
  - split; [discriminate | intros [s' H]; discriminate].
  - split; [intros [= ->]; eauto | intros [s' [= -> _]]; reflexivity].
Qed.

(** X9.  Every entry [parseDiffOutput] builds is of one of two kinds: its
    status is R or C and it has an old path, or its status is neither R nor
    C, it has a path and it has no old path. *)
Theorem changed_files_have_old_path_iff_moved :
  forall output,
    Forall (fun f =>
              ((status f = Some "R" \/ status f = Some "C") /\ is_Some (oldPath f)) \/
              (status f <> Some "R" /\ status f <> Some "C" /\
               is_Some (path f) /\ oldPath f = None))
           (parseDiffOutput output).
Proof.
  intros output. unfold parseDiffOutput.
  rewrite foldl_parseDiffOutput_line. cbn [app].
  apply Forall_concat, Forall_map, Forall_forall. intros line _. cbn beta.
  unfold parseDiffOutput_line.
  destruct (JsString.splitChar "009" line) as [|statusCode [|part1 parts']];
    [constructor | constructor |].
  destruct (Js.startsWith "R" statusCode) eqn:ER; cbn [orb app].
  { constructor; [|constructor]. left. cbn. split; [left; now apply first_startsWith | eauto]. }
  destruct (Js.startsWith "C" statusCode) eqn:EC; cbn [app].
  { constructor; [|constructor]. left. cbn. split; [right; now apply first_startsWith | eauto]. }
  constructor; [|constructor]. right. cbn. repeat split; eauto.
  - intros H%first_startsWith. congruence.
  - intros H%first_startsWith. congruence.
Qed.

(** *** Reading back what git prints *)

Lemma trimEnd_app_ws (c : ascii) (s : string) :
  JsString.isWhiteSpace c = true ->
  JsString.trimEnd (s +:+ String c EmptyString) = JsString.trimEnd s.
Proof.
  intros Hc. induction s as [|a s IH].
  - change (EmptyString +:+ String c EmptyString) with (String c EmptyString).
    cbn. now rewrite Hc.
  - change (String a s +:+ String c EmptyString) with (String a (s +:+ String c EmptyString)).
    cbn [JsString.trimEnd]. now rewrite IH.
Qed.

Lemma trimEnd_endsInText (s : string) :
  endsInText s = true -> JsString.trimEnd s = s.
Proof.
  induction s as [|a s IH]; [discriminate|].
  cbn [endsInText JsString.trimEnd]. destruct s as [|b s].
  - cbn. intros H. now destruct (JsString.isWhiteSpace a).
  - intros H. now rewrite (IH H).
Qed.

Lemma endsInText_app (s t : string) :
  endsInText t = true -> endsInText (s +:+ t) = true.
Proof.
  intros Ht. induction s as [|a s IH]; [exact Ht|].
  change (String a s +:+ t) with (String a (s +:+ t)). cbn [endsInText].
  destruct (s +:+ t) eqn:E; [|exact IH].
  destruct s, t; first [discriminate Ht | discriminate E].
Qed.

Lemma split_no_newline (s : string) :
  occursIn "010" s = false -> Js.split s = [s].
Proof.
  induction s as [|a s IH]; [reflexivity|].
  cbn [occursIn Js.split]. intros [Ha Hs]%orb_false_elim.
  now rewrite Ha, (IH Hs).
Qed.

Lemma splitChar_no_sep (sep : ascii) (s : string) :
  occursIn sep s = false -> JsString.splitChar sep s = [s].
Proof.
  induction s as [|a s IH]; [reflexivity|].
  cbn [occursIn JsString.splitChar]. intros [Ha Hs]%orb_false_elim.
  now rewrite Ha, (IH Hs).
Qed.

Lemma splitChar_app_sep (sep : ascii) (s t : string) :
  occursIn sep s = false ->
  JsString.splitChar sep (s +:+ String sep t) = s :: JsString.splitChar sep t.
Proof.
  induction s as [|a s IH].
  - intros _. change (EmptyString +:+ String sep t) with (String sep t).
    cbn [JsString.splitChar]. now rewrite Ascii.eqb_refl.
  - cbn [occursIn]. intros [Ha Hs]%orb_false_elim.
    change (String a s +:+ String sep t) with (String a (s +:+ String sep t)).
    cbn [JsString.splitChar]. now rewrite Ha, (IH Hs).
Qed.

Lemma occursIn_app (c : ascii) (s t : string) :
  occursIn c (s +:+ t) = occursIn c s || occursIn c t.
Proof.
  induction s as [|a s IH]; [reflexivity|].
  change (String a s +:+ t) with (String a (s +:+ t)). cbn [occursIn].
  now rewrite IH, orb_assoc.
Qed.

Lemma occursIn_cons (c a : ascii) (s : string) :
  occursIn c (String a s) = Ascii.eqb a c || occursIn c s.
Proof. reflexivity. Qed.

Lemma isField_split (s : string) :
  isField s = true -> occursIn "009" s = false /\ occursIn "010" s = false.
Proof.
  unfold isField. intros [H1 H2]%andb_prop.
  now apply negb_true_iff in H1, H2.
Qed.

(** The line of a listed entry: no line feed in it, its end is text, and it
    is read back as the entry's file. *)
Lemma nameStatusLine_listed (e : NameStatus) :
  isListed e = true ->
  occursIn "010" (nameStatusLine e) = false /\
  endsInText (nameStatusLine e) = true /\
  JsString.isWhiteSpace
    (match nameStatusLine e with String c _ => c | EmptyString => " "%char end) = false /\
  parseDiffOutput_line [] (nameStatusLine e) = [changedFileOf e].
Proof.
  destruct e as [letter p|letter score old p]; cbn [isListed nameStatusLine].
  - intros H. repeat (apply andb_prop in H as [H ?]).
    repeat match goal with H : negb _ = true |- _ => apply negb_true_iff in H end.
    destruct (isField_split p) as [Ht Hn]; [assumption|].
    assert (Hletter : occursIn "009" (String letter EmptyString) = false).
    { cbn. rewrite orb_false_r. destruct (Ascii.eqb_spec letter "009"); [subst; discriminate | reflexivity]. }
    assert (Hletter' : Ascii.eqb letter "010" = false).
    { destruct (Ascii.eqb_spec letter "010"); [subst; discriminate | reflexivity]. }
    repeat split.
    + cbn [occursIn]. rewrite Hletter', Hn. reflexivity.
    + change (String letter (String "009" p)) with (String letter (String "009" EmptyString) +:+ p).
      now apply endsInText_app.
    + assumption.
    + unfold parseDiffOutput_line.
      change (String letter (String "009" p)) with (String letter EmptyString +:+ String "009" p).
      rewrite splitChar_app_sep, splitChar_no_sep by assumption.
      unfold Js.startsWith. cbn [String.prefix].
      destruct (ascii_dec "R" letter) as [<-|_]; [discriminate|].
      destruct (ascii_dec "C" letter) as [<-|_]; [discriminate|].
      reflexivity.
  - intros H. repeat (apply andb_prop in H as [H ?]).
    destruct (isField_split score) as [Hts Hns]; [assumption|].
    destruct (isField_split old) as [Hto Hno]; [assumption|].
    destruct (isField_split p) as [Htp Hnp]; [assumption|].
    assert (Hl : letter = "R"%char \/ letter = "C"%char).
    { apply orb_prop in H as [H|H]; apply Ascii.eqb_eq in H; auto. }
    assert (Hcode : occursIn "009" (String letter score) = false).
    { cbn [occursIn]. rewrite Hts. destruct Hl as [-> | ->]; reflexivity. }
    repeat split.
    + repeat (rewrite occursIn_cons || rewrite occursIn_app).
      rewrite Hns, Hno, Hnp. destruct Hl as [-> | ->]; reflexivity.
    + change (String letter (score +:+ String "009" (old +:+ String "009" p)))
        with (String letter EmptyString +:+ (score +:+ String "009" (old +:+ String "009" p))).
      apply endsInText_app.
      change (String "009" (old +:+ String "009" p))
        with (String "009" EmptyString +:+ (old +:+ String "009" p)).
      apply endsInText_app, endsInText_app.
      change (String "009" p) with (String "009" EmptyString +:+ p).
      now apply endsInText_app, endsInText_app.
    + destruct Hl as [-> | ->]; reflexivity.
    + unfold parseDiffOutput_line.
      change (String letter (score +:+ String "009" (old +:+ String "009" p)))
        with (String letter score +:+ String "009" (old +:+ String "009" p)).
      rewrite splitChar_app_sep, splitChar_app_sep, splitChar_no_sep by assumption.
      destruct Hl as [-> | ->].
      * rewrite (proj2 (startsWith_char "R" (String "R" score))) by eauto. reflexivity.
      * rewrite (proj2 (startsWith_char "C" (String "C" score))) by eauto.
        rewrite orb_true_r. reflexivity.
Qed.

Lemma append_assoc_string (s t u : string) : (s +:+ t) +:+ u = s +:+ (t +:+ u).
Proof.
  induction s as [|a s IH]; [reflexivity|].
  change ((String a s +:+ t) +:+ u) with (String a ((s +:+ t) +:+ u)).
  now rewrite IH.
Qed.

Lemma nameStatusOutput_unlines (e : NameStatus) (entries : list NameStatus) :
  nameStatusOutput (e :: entries) =
  unlines (map nameStatusLine (e :: entries)) +:+ String "010" EmptyString.
Proof.
  revert e. induction entries as [|e2 entries IH]; intros e; [reflexivity|].
  cbn [nameStatusOutput] in *. rewrite IH.
  cbn [map unlines]. now rewrite append_assoc_string.
Qed.

Lemma unlines_cons (l l2 : string) (lines : list string) :
  unlines (l :: l2 :: lines) = l +:+ String "010" (unlines (l2 :: lines)).
Proof. reflexivity. Qed.

Lemma unlines_endsInText (l : string) (lines : list string) :
  Forall (fun x => endsInText x = true) (l :: lines) ->
  endsInText (unlines (l :: lines)) = true.
Proof.
  revert l. induction lines as [|l2 lines IH]; intros l H.
  - now apply Forall_cons in H as [H _].
  - apply Forall_cons in H as [_ H]. rewrite unlines_cons.
    apply endsInText_app.
    change (String "010" (unlines (l2 :: lines)))
      with (String "010" EmptyString +:+ unlines (l2 :: lines)).
    now apply endsInText_app, IH.
Qed.

Lemma split_unlines (l : string) (lines : list string) :
  Forall (fun x => occursIn "010" x = false) (l :: lines) ->
  Js.split (unlines (l :: lines)) = l :: lines.
Proof.
  revert l. induction lines as [|l2 lines IH]; intros l H.
  - apply Forall_cons in H as [H _]. now apply split_no_newline.
  - apply Forall_cons in H as [Hl H]. rewrite unlines_cons.
    now rewrite split_app_newline, (split_no_newline l Hl), (IH l2 H).
Qed.

Lemma listed_lines_read_back (entries : list NameStatus) :
  Forall (fun e => isListed e = true) entries ->
  concat (map (parseDiffOutput_line []) (map nameStatusLine entries)) =
  map changedFileOf entries.
Proof.
  induction 1 as [|x l Hx _ IH]; [reflexivity|].
  cbn [map concat]. destruct (nameStatusLine_listed x Hx) as (_ & _ & _ & ->).
  now rewrite IH.
Qed.

(** X10.  [parseDiffOutput] reads back a listing as git prints it: for
    entries whose letter is R or C exactly when they carry two paths, whose
    fields hold no tab and no line feed and whose path ends in a character
    that is no white space, the result has one file for each entry, in
    order, with the entry's letter, path and old path. *)
Theorem parseDiffOutput_reads_back_listing :
  forall entries,
    Forall (fun e => isListed e = true) entries ->
    parseDiffOutput (nameStatusOutput entries) = map changedFileOf entries.
Proof.
  intros [|e entries] H; [reflexivity|].
  assert (Hnl : Forall (fun x => occursIn "010" x = false) (map nameStatusLine (e :: entries))).
  { apply Forall_map. eapply Forall_impl; [exact H|]. intros x Hx.
    apply (nameStatusLine_listed x Hx). }
  assert (Hend : Forall (fun x => endsInText x = true) (map nameStatusLine (e :: entries))).
  { apply Forall_map. eapply Forall_impl; [exact H|]. intros x Hx.
    apply (nameStatusLine_listed x Hx). }
  assert (Hne : List.filter JsString.nonEmpty (map nameStatusLine (e :: entries)) =
                map nameStatusLine (e :: entries)).
  { clear. induction (e :: entries) as [|x l IH]; [reflexivity|].
    cbn [map List.filter]. now destruct x; cbn; rewrite IH. }
  unfold parseDiffOutput, JsString.trim.
  assert (Hstart : JsString.trimStart (nameStatusOutput (e :: entries)) =
                   nameStatusOutput (e :: entries)).
  { apply Forall_cons in H as [He _].
    destruct (nameStatusLine_listed e He) as (_ & _ & Hws & _).
    destruct e; cbn [nameStatusOutput nameStatusLine] in *;
      match goal with
      | |- JsString.trimStart (String ?c ?r +:+ ?t) = _ =>
          change (String c r +:+ t) with (String c (r +:+ t))
      end; cbn [JsString.trimStart]; now rewrite Hws. }
  rewrite Hstart, nameStatusOutput_unlines.
  rewrite trimEnd_app_ws by reflexivity.
  cbn [map] in *. rewrite trimEnd_endsInText by now apply unlines_endsInText.
  rewrite split_unlines by assumption.
  change (nameStatusLine e :: map nameStatusLine entries)
    with (map nameStatusLine (e :: entries)) in *.
  rewrite Hne, foldl_parseDiffOutput_line. cbn [app].
  now apply listed_lines_read_back.
Qed.

Lemma parseDiffOutput_reads_back_listing_witness :
  parseDiffOutput
    (nameStatusOutput [Changed "M" "src/a b.ts"; Moved "R" "096" "old.ts" "new.ts";
                       Changed "D" "gone.txt"]) =
  [mkChangedFile (Some "M") (Some "src/a b.ts") None;
   mkChangedFile (Some "R") (Some "new.ts") (Some "old.ts");
   mkChangedFile (Some "D") (Some "gone.txt") None].
Proof.
  refine (parseDiffOutput_reads_back_listing
            [Changed "M" "src/a b.ts"; Moved "R" "096" "old.ts" "new.ts";
             Changed "D" "gone.txt"] _).
  repeat constructor.
Defined.

(** X11.  A listing none of whose lines holds a tab (an error message, for
    one) gives no changed file. *)
Theorem lines_without_tab_give_no_file :
  forall output,
    Forall (fun l => occursIn "009" l = false) (Js.split (JsString.trim output)) ->
    parseDiffOutput output = [].
Proof.
  intros output H. unfold parseDiffOutput.
  rewrite foldl_parseDiffOutput_line. cbn [app].
  induction H as [|l lines Hl _ IH]; [reflexivity|].
  cbn [List.filter]. destruct (JsString.nonEmpty l); [|exact IH].
  cbn [map concat]. rewrite IH, app_nil_r.
  unfold parseDiffOutput_line. now rewrite splitChar_no_sep.
Qed.

Lemma lines_without_tab_give_no_file_witness :
  parseDiffOutput "fatal: bad revision" = [].
Proof.
  apply lines_without_tab_give_no_file. vm_compute. repeat constructor.
Defined.

(** ** The list of branches *)

Lemma indexOf_head (x : string) (l : list string) : indexOf (x :: l) x = 0.
Proof. cbn. now rewrite String.eqb_refl. Qed.

Lemma indexOf_lower (self : list string) (x : string) : -1 <= indexOf self x.
Proof.
  induction self as [|y self IH]; cbn; [lia|].
  destruct (String.eqb y x); [lia|].
  destruct (Z.ltb_spec (indexOf self x) 0); lia.
Qed.

Lemma indexOf_app_in (pre rest : list string) (x : string) :
  x ∈ pre -> 0 <= indexOf (pre ++ rest) x < Z.of_nat (length pre).
Proof.
  induction pre as [|y pre IH]; intros Hin; [inversion Hin|].
  cbn [app indexOf length]. destruct (String.eqb_spec y x) as [->|Hne]; [lia|].
  apply elem_of_cons in Hin as [->|Hin]; [congruence|].
  specialize (IH Hin). destruct (Z.ltb_spec (indexOf (pre ++ rest) x) 0); lia.
Qed.

Lemma indexOf_app_notin (pre rest : list string) (x : string) :
  x ∉ pre -> indexOf (pre ++ x :: rest) x = Z.of_nat (length pre).
Proof.
  induction pre as [|y pre IH]; intros Hin; [apply indexOf_head|].
  cbn [app indexOf length]. apply not_elem_of_cons in Hin as [Hne Hin].
  destruct (String.eqb_spec y x) as [->|_]; [congruence|].
  rewrite (IH Hin). destruct (Z.ltb_spec (Z.of_nat (length pre)) 0); lia.
Qed.

Lemma filterIndexed_first_occurrences (l : list string) :
  forall pre,
    let kept := filterIndexed
                  (fun branch index => indexOf (pre ++ l) branch =? Z.of_nat index)
                  (length pre) l in
    NoDup kept /\ forall x, x ∈ kept <-> x ∈ l /\ x ∉ pre.
Proof.
  induction l as [|x l IH]; intros pre; cbn [filterIndexed].
  - split; [constructor | intros x; split; [inversion 1 | intros [H _]; inversion H]].
  - specialize (IH (pre ++ [x])). rewrite <- app_assoc, length_app in IH.
    cbn [app length] in IH. rewrite Nat.add_1_r in IH. destruct IH as [Hnd Hin].
    destruct (decide (x ∈ pre)) as [Hpre|Hpre].
    + pose proof (indexOf_app_in pre (x :: l) x Hpre) as Hi.
      destruct (Z.eqb_spec (indexOf (pre ++ x :: l) x) (Z.of_nat (length pre))); [lia|].
      split; [exact Hnd|]. intros y. rewrite Hin, elem_of_cons, not_elem_of_app,
        not_elem_of_cons, elem_of_nil. split.
      * intros (Hy & Hp & Hx & _). auto.
      * intros ([->|Hy] & Hp); [contradiction|]. repeat split; auto. congruence.
    + rewrite (indexOf_app_notin pre l x Hpre), Z.eqb_refl. split.
      * apply NoDup_cons. split; [|exact Hnd]. rewrite Hin.
        intros [_ Hx]. apply Hx, elem_of_app. right. constructor.
      * intros y. rewrite !elem_of_cons, Hin, not_elem_of_app, not_elem_of_cons, elem_of_nil.
        split.
        -- intros [->|(Hy & Hp & _)]; auto.
        -- intros ([->|Hy] & Hp); [now left|].
           destruct (decide (y = x)) as [->|Hne]; [now left|]. right. repeat split; auto.
Qed.

Lemma stripPrefix_spec (p s t : string) :
  Js.stripPrefix p s = Some t <-> s = p +:+ t.
Proof.
  revert s. induction p as [|a p IH]; intros s.
  - change (EmptyString +:+ t) with t. cbn [Js.stripPrefix]. split; congruence.
  - change (String a p +:+ t) with (String a (p +:+ t)).
    destruct s as [|b s]; cbn [Js.stripPrefix]; [split; discriminate|].
    destruct (Ascii.eqb_spec a b) as [->|Hne].
    + rewrite IH. split; congruence.
    + split; [discriminate | congruence].
Qed.

Lemma append_cancel_l (p s t : string) : p +:+ s = p +:+ t -> s = t.
Proof.
  induction p as [|a p IH]; [auto|].
  change (String a p +:+ s) with (String a (p +:+ s)).
  change (String a p +:+ t) with (String a (p +:+ t)).
  intros [= H]. auto.
Qed.

Lemma stripOrigin_namesBranch (ref branch : string) :
  stripOrigin ref = branch <-> namesBranch ref branch.
Proof.
  unfold stripOrigin, namesBranch.
  destruct (Js.stripPrefix "origin/" ref) as [name|] eqn:E.
  - apply stripPrefix_spec in E. split.
    + intros <-. now left.
    + intros [H|[_ H]]; [|now destruct (H name)].
      rewrite E in H. now apply append_cancel_l in H.
  - split.
    + intros <-. right. split; [reflexivity|]. intros rest H.
      apply stripPrefix_spec in H. congruence.
    + intros [H|[H _]]; [|exact H].
      apply stripPrefix_spec in H. congruence.
Qed.

Lemma branchListing_unlines (ref : string) (refs : list string) :
  branchListing (ref :: refs) = unlines (ref :: refs) +:+ String "010" EmptyString.
Proof.
  revert ref. induction refs as [|ref2 refs IH]; intros ref; [reflexivity|].
  cbn [branchListing] in *. rewrite IH.
  rewrite unlines_cons. now rewrite append_assoc_string.
Qed.

Lemma isRefName_parts (ref : string) :
  isRefName ref = true ->
  occursIn "010" ref = false /\ startsInText ref = true /\ endsInText ref = true.
Proof.
  unfold isRefName. intros H. apply andb_prop in H as [H He].
  apply andb_prop in H as [Hn Hs]. now apply negb_true_iff in Hn.
Qed.

(** The stages of [getAllBranches] before the duplicates are dropped give
    one name for each ref of the listing, in order. *)
Lemma printedBranches_listing (refs : list string) :
  Forall (fun ref => isRefName ref = true) refs ->
  printedBranches (branchListing refs) = map stripOrigin refs.
Proof.
  intros H. destruct refs as [|ref refs]; [reflexivity|].
  assert (Hnl : Forall (fun x => occursIn "010" x = false) (ref :: refs)).
  { eapply Forall_impl; [exact H|]. intros x Hx. apply (isRefName_parts x Hx). }
  assert (Hend : Forall (fun x => endsInText x = true) (ref :: refs)).
  { eapply Forall_impl; [exact H|]. intros x Hx. apply (isRefName_parts x Hx). }
  assert (Hne : List.filter JsString.nonEmpty (ref :: refs) = ref :: refs).
  { clear Hnl Hend. induction H as [|x l Hx _ IH]; [reflexivity|].
    cbn [List.filter]. rewrite IH.
    destruct (isRefName_parts x Hx) as (_ & Hs & _). now destruct x. }
  assert (Hstart : JsString.trimStart (branchListing (ref :: refs)) =
                   branchListing (ref :: refs)).
  { apply Forall_cons in H as [Href _].
    destruct (isRefName_parts ref Href) as (_ & Hs & _).
    destruct ref as [|c ref]; [discriminate|]. cbn [branchListing].
    change (String c ref +:+ String "010" (branchListing refs))
      with (String c (ref +:+ String "010" (branchListing refs))).
    cbn [JsString.trimStart]. cbn [startsInText] in Hs.
    apply negb_true_iff in Hs. now rewrite Hs. }
  unfold printedBranches, JsString.trim.
  rewrite Hstart, branchListing_unlines.
  rewrite trimEnd_app_ws by reflexivity.
  rewrite trimEnd_endsInText by now apply unlines_endsInText.
  rewrite split_unlines by assumption.
  now rewrite Hne.
Qed.

(** X12.  On a listing as [git branch] prints it (one ref a line, each a
    line that neither starts nor ends in white space), [getAllBranches]
    lists no branch twice and loses none: its result holds, once each,
    exactly the branches the refs printed stand for, a ref [origin/b]
    standing for [b] and any other ref for itself. *)
Theorem branchNames_are_distinct_and_complete :
  forall refs,
    Forall (fun ref => isRefName ref = true) refs ->
    NoDup (branchNames (branchListing refs)) /\
    forall branch,
      branch ∈ branchNames (branchListing refs) <->
      exists ref, ref ∈ refs /\ namesBranch ref branch.
Proof.
  intros refs Hrefs. unfold branchNames.
  destruct (filterIndexed_first_occurrences (printedBranches (branchListing refs)) [])
    as [Hnd Hin].
  cbn [app length] in *. split; [exact Hnd|].
  intros branch. rewrite Hin, (printedBranches_listing refs Hrefs), list_elem_of_fmap.
  split.
  - intros [(ref & -> & Href) _]. exists ref. split; [exact Href|].
    now apply stripOrigin_namesBranch.
  - intros (ref & Href & Hn). split; [|inversion 1].
    exists ref. split; [|exact Href]. symmetry. now apply stripOrigin_namesBranch.
Qed.

Lemma branchNames_are_distinct_and_complete_witness :
  let refs := ["main"; "feature/x"; "origin/HEAD"; "origin/main"; "origin/dev"] in
  branchNames (branchListing refs) = ["main"; "feature/x"; "HEAD"; "dev"] /\
  NoDup (branchNames (branchListing refs)) /\
  forall branch,
    branch ∈ branchNames (branchListing refs) <->
    exists ref, ref ∈ refs /\ namesBranch ref branch.
Proof.
  cbv zeta. split; [reflexivity|].
  apply branchNames_are_distinct_and_complete.
  repeat (apply Forall_cons; split; [reflexivity|]). apply Forall_nil_2.
Defined.

(** ** Base branch, merge base and the tree *)

(** X13.  Whatever [getBaseBranch] returns exists according to
    [git rev-parse --verify] and is the configured branch, [main] or
    [master]; and it returns a branch whenever [main] or [master] exists. *)
Theorem getBaseBranch_returns_existing_branch :
  forall (gitService : GitService) (gitCli : GitCli) (configuredBranch : option string),
    (forall branch,
        getBaseBranch configuredBranch = Some branch ->
        branchExists branch = true /\
        (configuredBranch = Some branch \/ branch = "main" \/ branch = "master")) /\
    (branchExists "main" = true \/ branchExists "master" = true ->
     is_Some (getBaseBranch configuredBranch)).
Proof.
  intros gitService gitCli configuredBranch. unfold getBaseBranch. split.
  - intros branch.
    destruct configuredBranch as [configured|]; cbn beta iota.
    + destruct (JsString.nonEmpty configured && branchExists configured) eqn:E.
      * intros [= <-]. apply andb_prop in E as [_ E]. auto.
      * destruct (branchExists "main") eqn:E1; [intros [= <-]; auto|].
        destruct (branchExists "master") eqn:E2; [intros [= <-]; auto | discriminate].
    + destruct (branchExists "main") eqn:E1; [intros [= <-]; auto|].
      destruct (branchExists "master") eqn:E2; [intros [= <-]; auto | discriminate].
  - intros H.
    destruct (match configuredBranch with
              | Some branch => JsString.nonEmpty branch && branchExists branch
              | None => false
              end) eqn:E.
    + destruct configuredBranch; [eauto | discriminate].
    + destruct (branchExists "main"); [eauto|].
      destruct (branchExists "master"); [eauto|]. destruct H; discriminate.
Qed.

Lemma getBaseBranch_returns_existing_branch_witness :
  @branchExists exampleGit {| execAsyncCwd := fun _ _ => Some "" |} "main" = true.
Proof.
  refine (proj1 (proj1 (getBaseBranch_returns_existing_branch exampleGit
                   {| execAsyncCwd := fun _ _ => Some "" |} None) "main" _)).
  reflexivity.
Defined.

Lemma truthy_nonEmpty (value : option string) (s : string) :
  TreeView.truthy value = Some s -> s <> "".
Proof.
  destruct value as [[|c v]|]; cbn; [discriminate | intros [= <-]; discriminate | discriminate].
Qed.

(** X14.  After a [refresh()] that was not turned away by [isLoading], the
    provider is not loading, and either it lists changed files or it holds a
    status message that says why not.  [mergeBase] keeps its value or gets
    one that is not empty, also when [buildTree()] throws (the files and the
    tree are dropped then, the new merge base stays).  Files that are listed
    are the files changed since the merge base held, and the tree is the one
    [buildTree()] made of them. *)
Theorem refresh_lists_files_or_explains :
  forall (gitService : GitService) (gitCli : GitCli)
         (defaultBaseBranch : option string)
         (buildTree : TreeView.BranchDiffProvider -> option (list TreeView.TreeItemType))
         (this : TreeView.BranchDiffProvider),
    TreeView.isLoading this = false ->
    let after := TreeView.refresh defaultBaseBranch buildTree this in
    TreeView.isLoading after = false /\
    (TreeView.changedFiles after = [] -> is_Some (TreeView.statusMessage after)) /\
    (TreeView.statusMessage after = None -> TreeView.changedFiles after <> []) /\
    (TreeView.mergeBase after = TreeView.mergeBase this \/
     TreeView.mergeBase after <> "") /\
    (TreeView.changedFiles after <> [] ->
     TreeView.changedFiles after = getChangedFiles (TreeView.mergeBase after) /\
     TreeView.statusMessage after = None /\
     buildTree (TreeView.mkTreeProvider (TreeView.changedFiles after)
                  (TreeView.mergeBase after) (TreeView._baseBranch after)
                  (TreeView.rootItems this) true None) =
     Some (TreeView.rootItems after)).
Proof.
  intros gitService gitCli defaultBaseBranch buildTree this Hload after.
  subst after. unfold TreeView.refresh. rewrite Hload.
  destruct (TreeView.truthy _) as [branch|]; cbn.
  - destruct (TreeView.truthy (getMergeBase branch)) as [found|] eqn:E; cbn.
    + apply truthy_nonEmpty in E.
      destruct (buildTree _) as [items|] eqn:Eb; cbn.
      * destruct (getChangedFiles found) as [|f files] eqn:Ef; cbn in *;
          repeat split; eauto; try discriminate; try congruence.
      * repeat split; eauto; try discriminate; congruence.
    + repeat split; eauto; try discriminate; congruence.
  - repeat split; eauto; try discriminate; congruence.
Qed.

Lemma refresh_lists_files_or_explains_witness :
  let after := @TreeView.refresh exampleGit throwingCli None (fun _ => None)
                 (TreeView.mkTreeProvider [] "" "main" [] false None) in
  TreeView.mergeBase after = "abc" /\
  TreeView.changedFiles after = [] /\
  TreeView.statusMessage after = Some "Failed to load changes" /\
  TreeView.isLoading after = false.
Proof.
  cbv zeta.
  destruct (refresh_lists_files_or_explains exampleGit throwingCli None (fun _ => None)
              (TreeView.mkTreeProvider [] "" "main" [] false None) eq_refl)
    as (Hload & _).
  exact (conj eq_refl (conj eq_refl (conj eq_refl Hload))).
Defined.

(** *** [findFolder] *)

Lemma TreeItemType_forest_ind (P : TreeView.TreeItemType -> Prop) :
  (forall folderPath label children,
      Forall P children -> P (TreeView.FolderItem folderPath label children)) ->
  (forall file repoPath mergeBase baseBranch,
      P (TreeView.FileItem file repoPath mergeBase baseBranch)) ->
  forall item, P item.
Proof.
  intros Hfolder Hfile. fix IH 1. intros [folderPath label children|file r m b].
  - apply Hfolder. induction children as [|c children IHc]; constructor;
      [apply IH | exact IHc].
  - apply Hfile.
Qed.

Lemma findFolderAt_folder folderPath label children wanted :
  TreeView.findFolderAt (TreeView.FolderItem folderPath label children) wanted =
  if String.eqb folderPath wanted
  then Some (TreeView.FolderItem folderPath label children)
  else TreeView.findFolder children wanted.
Proof.
  cbn [TreeView.findFolderAt]. destruct (String.eqb folderPath wanted); [reflexivity|].
  induction children as [|c children IH]; [reflexivity|].
  cbn [TreeView.findFolder]. now rewrite IH.
Qed.

Lemma findFolderAt_first (wanted : string) (item : TreeView.TreeItemType) :
  TreeView.findFolderAt item wanted =
  head (List.filter (TreeView.hasPath wanted) (TreeView.foldersOf item)).
Proof.
  induction item as [folderPath label children IH|file r m b]
    using TreeItemType_forest_ind; [|reflexivity].
  rewrite findFolderAt_folder. cbn [TreeView.foldersOf List.filter TreeView.hasPath].
  destruct (String.eqb folderPath wanted); [reflexivity|].
  induction IH as [|c children Hc _ IHc]; [reflexivity|].
  cbn [TreeView.findFolder flat_map]. rewrite List.filter_app, Hc, IHc.
  now destruct (List.filter (TreeView.hasPath wanted) (TreeView.foldersOf c)).
Qed.

(** X15.  [findFolder] returns the first folder with the wanted path, in
    the order in which a folder comes before its children and the children
    in their order; it returns [undefined] exactly when no folder of the
    trees, at any depth, has that path. *)
Theorem findFolder_finds_first_folder_with_path :
  forall (items : list TreeView.TreeItemType) (wanted : string),
    TreeView.findFolder items wanted =
      head (List.filter (TreeView.hasPath wanted) (flat_map TreeView.foldersOf items)) /\
    (TreeView.findFolder items wanted = None <->
     Forall (fun folder => TreeView.hasPath wanted folder = false)
            (flat_map TreeView.foldersOf items)).
Proof.
  intros items wanted.
  assert (H : TreeView.findFolder items wanted =
              head (List.filter (TreeView.hasPath wanted)
                      (flat_map TreeView.foldersOf items))).
  { induction items as [|item items IH]; [reflexivity|].
    cbn [TreeView.findFolder flat_map]. rewrite List.filter_app, findFolderAt_first, IH.
    now destruct (List.filter (TreeView.hasPath wanted) (TreeView.foldersOf item)). }
  split; [exact H|]. rewrite H. clear H.
  induction (flat_map TreeView.foldersOf items) as [|f l IH]; cbn [List.filter].
  - split; [constructor | reflexivity].
  - destruct (TreeView.hasPath wanted f) eqn:E; cbn [head].
    + split; [discriminate | intros [H _]%Forall_cons; congruence].
    + rewrite IH. split; [intros H; now constructor | now intros [_ H]%Forall_cons].
Qed.

(** ** The records against the diff read line by line *)

Lemma countWhile_take (p : string) (l : list string) :
  runOf p (take (countWhile p l) l) /\ whileCond p (drop (countWhile p l) l) = false.
Proof.
  induction l as [|x l [IH1 IH2]]; cbn [countWhile].
  - split; [constructor | reflexivity].
  - destruct (Js.startsWith p x) eqn:E; cbn [take drop].
    + split; [now constructor | exact IH2].
    + split; [constructor | cbn; exact E].
Qed.

Lemma drop_cons_pred (k : nat) (x : string) (l : list string) :
  (1 <= k)%nat -> drop k (x :: l) = drop (k - 1) l.
Proof.
  destruct k; [lia|]. intros _.
  replace (S k - 1)%nat with k by lia. reflexivity.
Qed.

Lemma addedLines_removed_run (ms rest : list string) (newLine : Z) :
  runOf "-" ms -> addedLines (ms ++ rest) newLine = addedLines rest newLine.
Proof.
  induction 1 as [|m ms Hm _ IH]; [reflexivity|].
  cbn [app addedLines].
  rewrite (hunkMatch_not_at "-" m) by (discriminate || assumption).
  rewrite (startsWith_char_neq "-" "+" m) by (discriminate || assumption).
  rewrite (startsWith_char_neq "-" " " m) by (discriminate || assumption).
  now destruct (newLine =? 0).
Qed.

Lemma addedLines_added_run (ps rest : list string) :
  runOf "+" ps ->
  forall newLine, 0 < newLine ->
    addedLines (ps ++ rest) newLine =
    seqZ newLine (Z.of_nat (length ps)) ++
    addedLines rest (newLine + Z.of_nat (length ps)).
Proof.
  induction 1 as [|p ps Hp _ IH]; intros newLine Hc.
  - cbn. now rewrite Z.add_0_r.
  - cbn [app addedLines length].
    rewrite (hunkMatch_not_at "+" p) by (discriminate || assumption).
    rewrite Hp. destruct (Z.eqb_spec newLine 0); [lia|].
    rewrite seqZ_cons by lia. cbn [app]. f_equal.
    rewrite IH by lia. f_equal; [f_equal; lia | f_equal; lia].
Qed.

Lemma coveredLines_app (l1 l2 : list LineChange) :
  coveredLines (l1 ++ l2) = coveredLines l1 ++ coveredLines l2.
Proof. apply flat_map_app. Qed.

(** One turn of the loop covers the added lines among the lines it
    consumes. *)
Lemma iteration_addedLines line tl newLine :
  0 <= newLine ->
  let '(moved, newLine', pushed) := iteration line tl newLine [] in
  addedLines (line :: tl) newLine =
  coveredLines pushed ++ addedLines (drop moved tl) newLine'.
Proof.
  intros Hc. unfold iteration. cbn [addedLines].
  destruct (Js.hunkMatch line) as [g1|] eqn:Hh; [reflexivity|].
  destruct (Z.eqb_spec newLine 0) as [Hz|Hz]; [reflexivity|].
  destruct (Js.startsWith "-" line) eqn:Hm.
  - set (R := countWhile "-" (line :: tl)).
    set (A := countWhile "+" (drop R (line :: tl))).
    destruct (countWhile_take "-" (line :: tl)) as [Hms _]. fold R in Hms.
    destruct (countWhile_take "+" (drop R (line :: tl))) as [Hps _]. fold A in Hps.
    assert (HR : (1 <= R)%nat) by now apply countWhile_pos.
    assert (HRA : (R + A <= length (line :: tl))%nat) by apply countWhile_drop_le.
    assert (Hlines : addedLines (line :: tl) newLine =
                     seqZ newLine (Z.of_nat A) ++
                     addedLines (drop (R + A - 1) tl) (newLine + Z.of_nat A)).
    { rewrite <- (take_drop R (line :: tl)) at 1.
      rewrite addedLines_removed_run by exact Hms.
      rewrite <- (take_drop A (drop R (line :: tl))) at 1.
      rewrite addedLines_added_run by (exact Hps || lia).
      rewrite length_take, length_drop, drop_drop.
      replace (A `min` (length (line :: tl) - R))%nat with A by lia.
      now rewrite (drop_cons_pred (R + A)) by lia. }
    cbn [addedLines] in Hlines. rewrite Hh, (proj2 (Z.eqb_neq _ _) Hz) in Hlines.
    rewrite (startsWith_char_neq "-" "+" line) in Hlines by (discriminate || assumption).
    rewrite (startsWith_char_neq "-" " " line) in Hlines by (discriminate || assumption).
    rewrite (startsWith_char_neq "-" "+" line) by (discriminate || assumption).
    rewrite (startsWith_char_neq "-" " " line) by (discriminate || assumption).
    rewrite Hlines. clear Hlines. unfold push, coveredLines.
    destruct (Nat.ltb_spec 0 R); [|lia]. cbn [andb].
    destruct (Nat.ltb_spec 0 A).
    + destruct (Nat.ltb_spec (Nat.min R A) A).
      * cbn [app flat_map type startLine endLine]. f_equal. rewrite app_nil_r.
        replace (newLine + Z.of_nat (Nat.min R A) - 1 - newLine + 1)
          with (Z.of_nat (Nat.min R A)) by lia.
        replace (newLine + Z.of_nat A - 1 - (newLine + Z.of_nat (Nat.min R A)) + 1)
          with (Z.of_nat A - Z.of_nat (Nat.min R A)) by lia.
        rewrite <- seqZ_app by lia. f_equal. lia.
      * replace (Nat.min R A) with A by lia.
        destruct (Nat.ltb_spec A R); cbn [app flat_map type startLine endLine];
          rewrite ?app_nil_r; do 2 f_equal; lia.
    + replace A with O by lia. cbn [app flat_map type]. rewrite seqZ_nil by lia.
      cbn [app]. do 2 f_equal. lia.
  - destruct (Js.startsWith "+" line) eqn:Hp.
    + set (A := countWhile "+" (line :: tl)).
      destruct (countWhile_take "+" (line :: tl)) as [Hps _]. fold A in Hps.
      assert (HA : (1 <= A)%nat) by now apply countWhile_pos.
      assert (HAl : (A <= length (line :: tl))%nat) by apply countWhile_le.
      assert (Hlines : addedLines (line :: tl) newLine =
                       seqZ newLine (Z.of_nat A) ++
                       addedLines (drop (A - 1) tl) (newLine + Z.of_nat A)).
      { rewrite <- (take_drop A (line :: tl)) at 1.
        rewrite addedLines_added_run by (exact Hps || lia).
        rewrite length_take. replace (A `min` length (line :: tl))%nat with A by lia.
        now rewrite (drop_cons_pred A) by lia. }
      cbn [addedLines] in Hlines.
      rewrite Hh, (proj2 (Z.eqb_neq _ _) Hz), Hp in Hlines. rewrite Hlines.
      unfold push, coveredLines. cbn [app flat_map type startLine endLine].
      rewrite app_nil_r. do 2 f_equal. lia.
    + destruct (Js.startsWith " " line); reflexivity.
Qed.

Lemma loop_addedLines (n : nat) :
  forall rest newLine,
    (length rest <= n)%nat -> 0 <= newLine ->
    coveredLines (loop rest newLine []) = addedLines rest newLine.
Proof.
  induction n as [|n IH]; intros rest newLine Hlen Hc.
  - destruct rest; [now rewrite loop_nil | simpl in Hlen; lia].
  - destruct rest as [|line tl]; [now rewrite loop_nil|].
    rewrite loop_cons.
    pose proof (iteration_addedLines line tl newLine Hc) as Hit.
    pose proof (iteration_wellFormed line tl newLine Hc) as Hwf.
    destruct (iteration line tl newLine []) as [[moved newLine'] pushed].
    destruct Hwf as [Hc' _].
    assert (Hd : (length (drop moved tl) <= n)%nat)
      by (rewrite length_drop; simpl in Hlen; lia).
    rewrite (loop_acc n _ _ pushed Hd), coveredLines_app, Hit.
    f_equal. now apply IH.
Qed.

(** X16.  On a text whose line numbers stay exact, the lines the
    classifier marks as added or modified are the added lines of the diff,
    each under its new-file line number: going through the [added] and
    [modified] records in order and listing the lines each covers gives the
    same list as reading the diff line by line and noting the line number of
    every '+' line. *)
Theorem marked_lines_are_the_added_lines :
  forall diffOutput,
    lineNumbersExact (Js.split diffOutput) = true ->
    coveredLines (parseUnifiedDiff diffOutput) = addedLines (Js.split diffOutput) 0.
Proof.
  intros diffOutput _. unfold parseUnifiedDiff.
  apply (loop_addedLines (length (Js.split diffOutput))); lia.
Qed.

Lemma marked_lines_are_the_added_lines_witness :
  coveredLines (parseUnifiedDiff
    (unlines ["@@ -3,3 +3,4 @@"; " a"; "-b"; "+c"; "+d"; " e"; "+f"])) = [4; 5; 7].
Proof.
  refine (marked_lines_are_the_added_lines
            (unlines ["@@ -3,3 +3,4 @@"; " a"; "-b"; "+c"; "+d"; " e"; "+f"]) _).
  vm_compute. reflexivity.
Defined.

(** ** Where an entry of the cache comes from *)

Section Provenance.

Context {gitService : GitService}.

Lemma begin_awaiting_base this relativePath base path' :
  updateDecorations_begin this (Some relativePath) = Awaiting base path' ->
  base = mergeBase this /\ mergeBase this <> "".
Proof.
  unfold updateDecorations_begin.
  destruct (negb (enabled this)); [discriminate|]. cbn [orb].
  destruct (String.eqb_spec (mergeBase this) ""); [discriminate|].
  destruct (cache this !! relativePath); [discriminate|].
  intros [= <- _]. auto.
Qed.

(** Every base in play satisfies [P]: the base held unless it is empty, the
    base of every pending call, and a base each entry was classified
    against. *)
Lemma step_provenance (P Q : string -> Prop) s e :
  (forall b, P b -> Q b) -> (forall b, e = SetMergeBase b -> Q b) ->
  (mergeBase (gutterProvider s) = "" \/ P (mergeBase (gutterProvider s))) ->
  Forall (fun pending => P (snd pending)) (awaiting s) ->
  (forall p lc, cache (gutterProvider s) !! p = Some lc ->
                exists b, P b /\ lc = getLineDiff b p) ->
  (mergeBase (gutterProvider (step s e)) = "" \/ Q (mergeBase (gutterProvider (step s e)))) /\
  Forall (fun pending => Q (snd pending)) (awaiting (step s e)) /\
  (forall p lc, cache (gutterProvider (step s e)) !! p = Some lc ->
                exists b, Q b /\ lc = getLineDiff b p).
Proof.
  intros HPQ He Hbase Hwait Hcache.
  assert (Hbase' : mergeBase (gutterProvider s) = "" \/ Q (mergeBase (gutterProvider s)))
    by (destruct Hbase; auto).
  assert (Hwait' : Forall (fun pending => Q (snd pending)) (awaiting s))
    by (eapply Forall_impl; [exact Hwait | intros x; apply HPQ]).
  assert (Hcache' : forall p lc, cache (gutterProvider s) !! p = Some lc ->
                                 exists b, Q b /\ lc = getLineDiff b p).
  { intros p lc H. destruct (Hcache p lc H) as (b & Hb & ->). eauto. }
  destruct e as [newBase| |relativePath|k]; unfold step.
  - unfold setMergeBase.
    destruct (String.eqb (mergeBase (gutterProvider s)) newBase);
      cbn [negb gutterProvider awaiting cache mergeBase]; repeat split; auto.
    intros p lc. rewrite lookup_empty. discriminate.
  - cbn [gutterProvider awaiting cacheClear cache mergeBase]. repeat split; auto.
    intros p lc. rewrite lookup_empty. discriminate.
  - destruct (updateDecorations_begin (gutterProvider s) (Some relativePath))
      as [|lc|base path'] eqn:E; auto.
    apply begin_awaiting_base in E as [-> Hne].
    cbn [gutterProvider awaiting]. repeat split; auto.
    apply Forall_app. split; [exact Hwait'|]. repeat constructor. cbn [snd].
    destruct Hbase'; [contradiction | assumption].
  - destruct (awaiting s !! k) as [[path' base]|] eqn:E; auto.
    pose proof (proj1 (Forall_lookup _ _) Hwait' k _ E) as Hb. cbn [snd] in Hb.
    unfold updateDecorations_resume. cbn [gutterProvider awaiting cache mergeBase].
    repeat split; auto.
    + apply Forall_forall. intros x Hx%list_elem_of_delete_inv.
      exact (proj1 (Forall_forall _ _) Hwait' x Hx).
    + intros p lc [[<- <-]|[_ H]]%lookup_insert_Some; eauto.
Qed.

Lemma run_provenance trace :
  forall (P : string -> Prop) s,
    (mergeBase (gutterProvider s) = "" \/ P (mergeBase (gutterProvider s))) ->
    Forall (fun pending => P (snd pending)) (awaiting s) ->
    (forall p lc, cache (gutterProvider s) !! p = Some lc ->
                  exists b, P b /\ lc = getLineDiff b p) ->
    forall p lc, cache (gutterProvider (run s trace)) !! p = Some lc ->
                 exists b, (P b \/ SetMergeBase b ∈ trace) /\ lc = getLineDiff b p.
Proof.
  induction trace as [|e trace IH]; intros P s Hbase Hwait Hcache p lc H.
  - destruct (Hcache p lc H) as (b & Hb & ->). eauto.
  - cbn [run foldl] in H. fold (run (step s e) trace) in H.
    destruct (step_provenance P (fun b => P b \/ e = SetMergeBase b) s e)
      as (H1 & H2 & H3); auto.
    destruct (IH _ _ H1 H2 H3 p lc H) as (b & Hb & ->).
    exists b. split; [|reflexivity].
    rewrite elem_of_cons. destruct Hb as [[Hb|Hb]|Hb]; auto.
Qed.

End Provenance.

(** X17.  Whatever the order of the operations, overlapping or not, an
    entry of the cache is the classification of the diff of its own path
    against a base that [setMergeBase] was called with: entries are never
    stored under another file's path nor computed against a base that was
    never set. *)
Theorem cache_entries_belong_to_their_path :
  forall (gitService : GitService) (gutterIndicators : bool) (trace : list Event)
         (relativePath : string) (lineChanges : list LineChange),
    cache (gutterProvider (run (start gutterIndicators) trace)) !! relativePath
      = Some lineChanges ->
    exists base,
      SetMergeBase base ∈ trace /\ lineChanges = getLineDiff base relativePath.
Proof.
  intros gitService gutterIndicators trace relativePath lineChanges H.
  assert (H0 : forall p lc,
             cache (gutterProvider (start gutterIndicators)) !! p = Some lc ->
             exists b, False /\ lc = getLineDiff b p).
  { intros p lc. cbn. rewrite lookup_empty. discriminate. }
  destruct (run_provenance trace (fun _ => False) (start gutterIndicators)
              (or_introl eq_refl) (Forall_nil_2 _) H0 relativePath lineChanges H)
    as (b & [[]|Hb] & ->).
  eauto.
Qed.

Lemma cache_entries_belong_to_their_path_witness :
  exists base,
    SetMergeBase base ∈ staleTrace /\
    [mkLineChange modified 1 1] = @getLineDiff exampleGit base "f".
Proof.
  refine (cache_entries_belong_to_their_path exampleGit true staleTrace "f"
            [mkLineChange modified 1 1] _).
  vm_compute. reflexivity.
Defined.
